(** * Subtitler: the transcription-and-translation pipeline

    A shallow embedding of [src/subtitler_util/subtitler.py] and the
    properties of its pipeline.

    Conventions of the embedding.
    - A Python [str] is a Rocq [string]; a character is a code point below
      256, so [str.lower] and [str.strip] are the Latin-1 restriction of
      Python's Unicode tables.
    - A Python [float] holding a number of seconds is the rational it
      denotes ([Q]); the product by [1e6] inside [timedelta] is taken
      exactly.
    - A Python [dict] whose iteration order matters is an association list
      in insertion order, with unique keys ([dict_set]).
    - Everything outside the program (whisper, deep_translator, the file
      system, the platform, the tables of [constants.py]) is an [Env]
      record of oracles; what the program does to the outside is a trace
      of [Event]s inside the state of an error-and-state monad. *)

From Stdlib Require Import ZArith QArith Qround Lqa Lia List String Ascii Bool.
From Stdlib Require Import DecimalString Finite Sorted.
Import ListNotations.

Local Open Scope string_scope.
Local Open Scope Z_scope.

Set Implicit Arguments.

(** ** Python strings *)

Module PyStr.

Definition code (c : ascii) : Z := Z.of_nat (nat_of_ascii c).

Definition chr (z : Z) : ascii := ascii_of_nat (Z.to_nat z).

(** [str.isspace] on one character, for code points below 256. *)
Definition isspace (c : ascii) : bool :=
  let n := code c in
  ((9 <=? n) && (n <=? 13)) || ((28 <=? n) && (n <=? 32))
  || (n =? 133) || (n =? 160).

(** The characters that [str.lower] changes, for code points below 256:
    A-Z, and the Latin-1 capitals save the multiplication sign. *)
Definition isupper (c : ascii) : bool :=
  let n := code c in
  ((65 <=? n) && (n <=? 90))
  || ((192 <=? n) && (n <=? 222) && negb (n =? 215)).

Definition lower_char (c : ascii) : ascii :=
  if isupper c then chr (code c + 32) else c.

(** [s.lower()] *)
Fixpoint lower (s : string) : string :=
  match s with
  | EmptyString => EmptyString
  | String c r => String (lower_char c) (lower r)
  end.

(** [s.lstrip()] *)
Fixpoint lstrip (s : string) : string :=
  match s with
  | EmptyString => EmptyString
  | String c r => if isspace c then lstrip r else s
  end.

(** [s.rstrip()] *)
Fixpoint rstrip (s : string) : string :=
  match s with
  | EmptyString => EmptyString
  | String c r =>
      match rstrip r with
      | EmptyString => if isspace c then EmptyString else String c EmptyString
      | r' => String c r'
      end
  end.

(** [s.strip()] *)
Definition strip (s : string) : string := rstrip (lstrip s).

Fixpoint all_space (s : string) : bool :=
  match s with
  | EmptyString => true
  | String c r => isspace c && all_space r
  end.

Definition first_char (s : string) : option ascii :=
  match s with EmptyString => None | String c _ => Some c end.

Fixpoint last_char (s : string) : option ascii :=
  match s with
  | EmptyString => None
  | String c EmptyString => Some c
  | String _ r => last_char r
  end.

Definition opt_space (o : option ascii) : bool :=
  match o with Some c => isspace c | None => false end.

(** [s.split(sep)] for a one-character separator: never empty. *)
Fixpoint split (sep : ascii) (s : string) : list string :=
  match s with
  | EmptyString => [EmptyString]
  | String c r =>
      if Ascii.eqb c sep then EmptyString :: split sep r
      else match split sep r with
           | [] => [String c EmptyString]
           | w :: ws => String c w :: ws
           end
  end.

(** [sep.join(l)] *)
Fixpoint join (sep : string) (l : list string) : string :=
  match l with
  | [] => EmptyString
  | [w] => w
  | w :: ws => w ++ sep ++ join sep ws
  end.

(** [str(n)] for an integer. *)
Definition str_int (z : Z) : string := NilZero.string_of_int (Z.to_int z).

(** [s[:-3]] *)
Definition slice_to_minus3 (s : string) : string :=
  substring 0 (String.length s - 3)%nat s.

(** One decimal digit and its value. *)
Definition digit (n : Z) : ascii := chr (48 + n mod 10).

Definition digit_val (c : ascii) : option Z :=
  let n := code c in
  if (48 <=? n) && (n <=? 57) then Some (n - 48) else None.

(** The two-digit and six-digit zero-padded fields of [strftime]. *)
Definition zfill2 (n : Z) (k : string) : string :=
  String (digit (n / 10)) (String (digit n) k).

Definition zfill6 (n : Z) (k : string) : string :=
  String (digit (n / 100000)) (String (digit (n / 10000))
    (String (digit (n / 1000)) (String (digit (n / 100))
      (String (digit (n / 10)) (String (digit n) k))))).

End PyStr.

(** ** Python dictionaries, in insertion order *)

Section Dict.
Variables K V : Type.
Variable eqb : K -> K -> bool.

Definition dict := list (K * V).

Fixpoint dict_get (d : dict) (k : K) : option V :=
  match d with
  | [] => None
  | (k', v) :: r => if eqb k k' then Some v else dict_get r k
  end.

(** [d[k] = v]: an existing key keeps its place, a new one goes last. *)
Fixpoint dict_set (d : dict) (k : K) (v : V) : dict :=
  match d with
  | [] => [(k, v)]
  | (k', v') :: r =>
      if eqb k k' then (k', v) :: r else (k', v') :: dict_set r k v
  end.

Definition dict_mem (d : dict) (k : K) : bool :=
  match dict_get d k with Some _ => true | None => false end.

Definition keys (d : dict) : list K := map fst d.
Definition values (d : dict) : list V := map snd d.
End Dict.

(** ** The Timestamp Formatter *)

Module Timestamp.
Import PyStr.

(** [round], to the nearest integer and to the even one on a tie. *)
Definition round_half_even (q : Q) : Z :=
  let f := Qfloor q in
  match Qcompare (q - inject_Z f)%Q (1 # 2)%Q with
  | Lt => f
  | Gt => f + 1
  | Eq => if Z.even f then f else f + 1
  end.

(** [math.modf]: the integral part, truncated towards zero. *)
Definition trunc (q : Q) : Z := Z.quot (Qnum q) (Z.pos (Qden q)).

(** [timedelta(seconds=x)], as a number of microseconds: the integral
    seconds are kept and the fraction is rounded to the microsecond. *)
Definition timedelta (time_in_seconds : Q) : Z :=
  let seconds := trunc time_in_seconds in
  let secondsfrac := (time_in_seconds - inject_Z seconds)%Q in
  seconds * 1000000 + round_half_even (secondsfrac * inject_Z 1000000)%Q.

Definition us_per_day : Z := 86400 * 1000000.

(** [timedelta] holds at most 999999999 days either way. *)
Definition timedelta_ok (us : Z) : bool :=
  (- 999999999 * us_per_day <=? us) && (us <? 1000000000 * us_per_day).

(** A [datetime] is its distance in microseconds from
    1900-01-01 00:00:00, the value [strptime] gives here. The type
    reaches from 0001-01-01, 693595 days before, to the end of
    9999-12-31, 2958464 days after. *)
Definition datetime_ok (dt : Z) : bool :=
  (- 693595 * us_per_day <=? dt) && (dt <? 2958464 * us_per_day).

Definition hour (dt : Z) : Z := (dt mod us_per_day) / 3600000000.
Definition minute (dt : Z) : Z := (dt mod 3600000000) / 60000000.
Definition second (dt : Z) : Z := (dt mod 60000000) / 1000000.
Definition microsecond (dt : Z) : Z := dt mod 1000000.

(** [dt.strftime("%H:%M:%S,%f")] *)
Definition strftime (dt : Z) : string :=
  zfill2 (hour dt) (String ":" (zfill2 (minute dt) (String ":"
    (zfill2 (second dt) (String "," (zfill6 (microsecond dt) EmptyString)))))).

(** [format_timestamp]; [None] is the [OverflowError] of the duration
    or date arithmetic. *)
Definition format_timestamp (time_in_seconds : Q) : option string :=
  let dt_obj := 0 in
  let delta_seconds := timedelta time_in_seconds in
  if negb (timedelta_ok delta_seconds) then None else
  let dt_obj := dt_obj + delta_seconds in
  if negb (datetime_ok dt_obj) then None else
  Some (slice_to_minus3 (strftime dt_obj)).

(** Reading a time code back, in milliseconds; [None] unless the text
    has the shape HH:MM:SS,mmm. *)
Definition parse_timestamp (s : string) : option Z :=
  match s with
  | String h1 (String h0 (String c1 (String m1 (String m0 (String c2
      (String s1 (String s0 (String c3 (String f2 (String f1 (String f0
        EmptyString))))))))))) =>
      if Ascii.eqb c1 ":" && Ascii.eqb c2 ":" && Ascii.eqb c3 "," then
        match digit_val h1, digit_val h0, digit_val m1, digit_val m0,
              digit_val s1, digit_val s0,
              digit_val f2, digit_val f1, digit_val f0 with
        | Some h1, Some h0, Some m1, Some m0, Some s1, Some s0,
          Some f2, Some f1, Some f0 =>
            Some (((10 * h1 + h0) * 3600 + (10 * m1 + m0) * 60
                   + (10 * s1 + s0)) * 1000 + 100 * f2 + 10 * f1 + f0)
        | _, _, _, _, _, _, _, _, _ => None
        end
      else None
  | _ => None
  end.

End Timestamp.

(** ** The outside world *)

Inductive ExnClass :=
| OutOfMemoryError   (* torch.cuda.OutOfMemoryError *)
| Exception          (* a plain Exception, or any other of its subclasses *)
| AttributeError
| IndexError
| KeyError
| TypeError
| OverflowError.

Record Exn := mkExn { exn_class : ExnClass; exn_msg : string }.

Inductive Result (A : Type) :=
| Ok (a : A)
| Raise (e : Exn).
Arguments Ok {A} a.
Arguments Raise {A} e.

Inductive Device := cuda | cpu.

(** A loaded whisper model. *)
Record Model := mkModel { model_name : string; model_device : Device }.

(** A decoded waveform. *)
Record Audio := mkAudio { samples : list Z }.

(** One segment of [model.transcribe(...)["segments"]]: the keys
    "id", "start", "end" and "text". *)
Record Segment := mkSegment {
  seg_id : Z;
  seg_start : Q;
  seg_end : Q;
  seg_text : string
}.

(** One value of a TranscriptionResult or TranslatedResult: the keys
    "start_time", "end_time" and "text". *)
Record SubtitleEntry := mkEntry {
  start_time : string;
  end_time : string;
  text : string
}.

Definition SubtitleResult := dict Z SubtitleEntry.

(** What [init_translator] leaves in its variable [translator]: one of
    the deep_translator objects or, when no branch assigns it, the
    provider's name itself. *)
Inductive TranslatorObj :=
| GoogleTranslator (source target : string)
| DeeplTranslator (api_key source target : string)
| YandexTranslator (api_key source target : string)
| MicrosoftTranslator (api_key target : string)
| ChatGptTranslator (api_key target : string)
| LibreTranslator (api_key source target base_url : string)
| ProviderName (name : string).

(** The tables of [constants.py], the platform and the external
    libraries. An oracle answers one call; the program decides which calls
    are made, and in what order. *)
Record Env := mkEnv {
  SUPPORTED_TRANSLATORS : list string;
  TRANSCRIPTION_SUPPORTED_LANGS : dict string string;
  TRANSLATION_SUPPORTED_LANGS : dict string string;
  os_name_is_nt : bool;
  cp850_replace : string -> string;
  cuda_is_available : bool;
  whisper_load_model : string -> Device -> Result Model;
  whisper_load_audio : string -> Result Audio;
  model_transcribe : Model -> Audio -> string -> Result (list Segment);
  deep_translator_init : TranslatorObj -> Result unit;
  deep_translator_translate_batch :
    TranslatorObj -> list string -> Result (list (option string))
}.

(** What the program does to the outside, in the order it does it. *)
Inductive Event :=
| Print (line : string)
| Progress (current total : Z)   (* the line "progress: <current>/<total>" *)
| ReadModelPref
| WriteModelPref (content : string)
| LoadModel (size : string) (device : Device)
| LoadAudio (file : string)
| Transcribe (model : Model) (audio : Audio) (language : string)
| TranslateBatch (translator : TranslatorObj) (batch : list string)
| WriteFile (name : string) (body : string).

(** ** The monad of the program: exceptions, one file, a trace

    The only state is the content of the file ".model_pref" ([None]: the
    file does not exist). The file system is taken to be reliable: opening,
    reading and writing do not fail. A computation also yields the events
    it caused, oldest first, whether it ends normally or not. *)

Record Outcome (A : Type) := mkOutcome {
  result : Result A;
  model_pref_file : option string;
  trace : list Event
}.

Definition M (A : Type) : Type := option string -> Outcome A.

Definition ret {A} (a : A) : M A := fun p => mkOutcome (Ok a) p [].

Definition raise {A} (c : ExnClass) (msg : string) : M A :=
  fun p => mkOutcome (Raise (mkExn c msg)) p [].

Definition bind {A B} (m : M A) (k : A -> M B) : M B :=
  fun p =>
    let o := m p in
    match result o with
    | Ok a =>
        let o' := k a (model_pref_file o) in
        mkOutcome (result o') (model_pref_file o') (trace o ++ trace o')
    | Raise e => mkOutcome (Raise e) (model_pref_file o) (trace o)
    end.

(** [try: m  except Exception as e: handler e] *)
Definition try_except {A} (m : M A) (handler : Exn -> M A) : M A :=
  fun p =>
    let o := m p in
    match result o with
    | Ok a => o
    | Raise e =>
        let o' := handler e (model_pref_file o) in
        mkOutcome (result o') (model_pref_file o') (trace o ++ trace o')
    end.

Notation "x <- m ;; k" := (bind m (fun x => k))
  (at level 61, m at next level, right associativity).
Notation "m ;;; k" := (bind m (fun _ => k))
  (at level 61, right associativity).

Definition emit (e : Event) : M unit := fun p => mkOutcome (Ok tt) p [e].

Definition print (line : string) : M unit := emit (Print line).

(** The answer of an oracle, an exception included. *)
Definition lift {A} (r : Result A) : M A := fun p => mkOutcome r p [].

(** ** The program *)

Definition nl : string := String (ascii_of_nat 10) EmptyString.
Definition tab : string := String (ascii_of_nat 9) EmptyString.
Definition dquote : string := String (ascii_of_nat 34) EmptyString.

Definition type_error_none : Exn :=
  mkExn TypeError
    ("can only concatenate str (not " ++ dquote ++ "NoneType" ++ dquote
     ++ ") to str").

Section Program.
Variable E : Env.

(** *** [init_model] *)

(** [f.readline()] on the whole content of a file just opened. *)
Fixpoint readline (content : string) : string :=
  match content with
  | EmptyString => EmptyString
  | String c r =>
      if Ascii.eqb c (ascii_of_nat 10) then String c EmptyString
      else String c (readline r)
  end.

Definition load_model_pref (model_size : option string) : M (option string) :=
  match model_size with
  | Some m => ret (Some m)
  | None =>
      fun p =>
        match p with
        | Some content => mkOutcome (Ok (Some (readline content))) p [ReadModelPref]
        | None => mkOutcome (Ok None) p []
        end
  end.

Definition save_model_pref (model_size : string) : M unit :=
  fun _ => mkOutcome (Ok tt) (Some model_size) [WriteModelPref model_size].

Definition load_model (name : string) (device : Device) : M Model :=
  emit (LoadModel name device) ;;;
  lift (whisper_load_model E name device).

Definition model_sizes : list string :=
  ["large-v3-turbo"; "large-v3"; "large-v2"; "large";
   "medium"; "small"; "base"; "tiny"].

(** The [for model_size in model_sizes] loop; falling out of it is
    [return None]. *)
Fixpoint try_model_sizes (device : Device) (sizes : list string)
  : M (option Model) :=
  match sizes with
  | [] => ret None
  | model_size :: rest =>
      try_except
        (model <- load_model model_size device ;;
         print ("model " ++ model_size ++ " loaded successfully.") ;;;
         save_model_pref model_size ;;;
         ret (Some model))
        (fun e =>
           match exn_class e with
           | OutOfMemoryError => try_model_sizes device rest
           | _ =>
               print ("failed to load model " ++ model_size) ;;;
               print (exn_msg e) ;;;
               try_model_sizes device rest
           end)
  end.

(** [None] is Python's [None]. *)
Definition init_model (model_size : option string) : M (option Model) :=
  let device := if cuda_is_available E then cuda else cpu in
  p <- load_model_pref model_size ;;
  match p with
  | Some _ =>
      p1 <- load_model_pref model_size ;;
      print ("loading whisper's '"
             ++ match p1 with Some n => n | None => "None" end
             ++ "' model") ;;;
      p2 <- load_model_pref model_size ;;
      match p2 with
      | Some n => model <- load_model n device ;; ret (Some model)
      | None => raise TypeError "load_model: name is None"
      end
  | None => try_model_sizes device model_sizes
  end.

(** *** [transcribe_audio] *)

Definition format_timestamp (time_in_seconds : Q) : Result string :=
  match Timestamp.format_timestamp time_in_seconds with
  | Some t => Ok t
  | None => Raise (mkExn OverflowError "date value out of range")
  end.

(** The loop of [post_process_result_for_srt], [new_result] being the
    dictionary built so far. *)
Fixpoint post_process_segments (segments : list Segment)
    (new_result : SubtitleResult) : Result SubtitleResult :=
  match segments with
  | [] => Ok new_result
  | seg :: rest =>
      let seg_id := seg_id seg + 1 in
      match format_timestamp (seg_start seg) with
      | Raise e => Raise e
      | Ok st =>
          match format_timestamp (seg_end seg) with
          | Raise e => Raise e
          | Ok en =>
              post_process_segments rest
                (dict_set Z.eqb new_result seg_id
                   (mkEntry st en (PyStr.strip (seg_text seg))))
          end
      end
  end.

Definition post_process_result_for_srt (segments : list Segment)
  : Result SubtitleResult :=
  post_process_segments segments [].

Definition unsupported_language_msg : string :=
  "Cannot Transcribe! Unsupported Language. See Readme for list of supported languages.".

Definition transcribe_audio (model : option Model) (audio_file : string)
    (language : string) : M SubtitleResult :=
  let language := PyStr.lower language in
  if negb (dict_mem String.eqb (TRANSCRIPTION_SUPPORTED_LANGS E) language)
  then raise Exception unsupported_language_msg
  else
    emit (LoadAudio audio_file) ;;;
    audio <- lift (whisper_load_audio E audio_file) ;;
    match model with
    | None =>
        raise AttributeError "'NoneType' object has no attribute 'transcribe'"
    | Some m =>
        emit (Transcribe m audio language) ;;;
        result <- lift (model_transcribe E m audio language) ;;
        lift (post_process_result_for_srt result)
    end.

(** *** [translate_transcribed_result] *)

Definition unsupported_translator_msg : string :=
  "Unsupported Translator Service Provided. Please request translations from one of the the supported service providers. (see config for complete list.)".

Definition api_key_msg : string :=
  "API_KEY is necessary to access Deepl translation service. Please register for free and get an API-Key at https://www.deepl.com/en/your-account/keys.".

Definition construct (t : TranslatorObj) : M TranslatorObj :=
  lift (deep_translator_init E t) ;;; ret t.

Definition init_translator (translator : string)
    (transcribed_language target_language : string)
    (api_key : option string) : M TranslatorObj :=
  if negb (existsb (String.eqb translator) (SUPPORTED_TRANSLATORS E))
  then raise Exception unsupported_translator_msg
  else if String.eqb translator "google"
  then construct (GoogleTranslator transcribed_language target_language)
  else
    match api_key with
    | None => raise Exception api_key_msg
    | Some api_key =>
        if String.eqb translator "deepl" then
          construct (DeeplTranslator api_key transcribed_language target_language)
        else if String.eqb translator "yandex" then
          construct (YandexTranslator api_key transcribed_language target_language)
        else if String.eqb translator "microsoft" then
          construct (MicrosoftTranslator api_key target_language)
        else if String.eqb translator "chatgpt" then
          construct (ChatGptTranslator api_key target_language)
        else if String.eqb translator "libre-translate" then
          construct (LibreTranslator api_key transcribed_language
                       target_language "https://libretranslate.com/")
        else ret (ProviderName translator)
    end.

(** An entry of [translated_result] between the two loops: it has no
    "text" yet. *)
Record TimedEntry := mkTimed { t_start_time : string; t_end_time : string }.

(** The first loop: the timed entries and [translation_cache]. *)
Fixpoint copy_times (items : list (Z * SubtitleEntry))
    (translated_result : dict Z TimedEntry) (translation_cache : list string)
  : dict Z TimedEntry * list string :=
  match items with
  | [] => (translated_result, translation_cache)
  | (id, transcribed_obj) :: rest =>
      copy_times rest
        (dict_set Z.eqb translated_result id
           (mkTimed (start_time transcribed_obj) (end_time transcribed_obj)))
        (translation_cache ++ [text transcribed_obj])
  end.

Definition placeholder : string := ".".

(** The second loop: [pop(0)] for every entry, in order. *)
Fixpoint fill_texts (items : list (Z * TimedEntry))
    (translated_results_cache : list (option string))
  : Result SubtitleResult :=
  match items with
  | [] => Ok []
  | (id, result_obj) :: rest =>
      match translated_results_cache with
      | [] => Raise (mkExn IndexError "pop from empty list")
      | temp :: cache' =>
          let txt := match temp with Some t => t | None => placeholder end in
          match fill_texts rest cache' with
          | Ok r =>
              Ok ((id, mkEntry (t_start_time result_obj)
                               (t_end_time result_obj) txt) :: r)
          | Raise e => Raise e
          end
      end
  end.

Definition translate_batch (translator : TranslatorObj)
    (batch : list string) : M (list (option string)) :=
  match translator with
  | ProviderName _ =>
      raise AttributeError "'str' object has no attribute 'translate_batch'"
  | _ =>
      emit (TranslateBatch translator batch) ;;;
      lift (deep_translator_translate_batch E translator batch)
  end.

Definition translate_transcribed_result (transcribed_result : SubtitleResult)
    (transcribed_language target_language : string)
    (translator : string) (api_key : option string) : M SubtitleResult :=
  translator <- init_translator translator transcribed_language
                  target_language api_key ;;
  let '(translated_result, translation_cache) :=
    copy_times transcribed_result [] [] in
  translated_results_cache <- translate_batch translator translation_cache ;;
  lift (fill_texts translated_result translated_results_cache).

(** *** [save_result_as_srt] *)

Definition get_lang_iso_code (lang : string) : option string :=
  if dict_mem String.eqb (TRANSCRIPTION_SUPPORTED_LANGS E) lang
  then dict_get String.eqb (TRANSCRIPTION_SUPPORTED_LANGS E) lang
  else if dict_mem String.eqb (TRANSLATION_SUPPORTED_LANGS E) lang
  then dict_get String.eqb (TRANSLATION_SUPPORTED_LANGS E) lang
  else None.

(** [a + b] where [a] is a [str] and [b] a [str] or [None]. *)
Definition str_add (a : string) (b : option string) : Result string :=
  match b with
  | Some b => Ok (a ++ b)
  | None => Raise type_error_none
  end.

(** [".".join(video_file_name.split(".")[:-1])] *)
Definition base_name (video_file_name : string) : string :=
  PyStr.join "." (removelast (PyStr.split "." video_file_name)).

Definition srt_file_name (target_language video_file_name : string)
    (default_srt_file : bool) : Result string :=
  let prefix :=
    if default_srt_file then base_name video_file_name ++ ".default."
    else base_name video_file_name ++ "." in
  match str_add prefix (get_lang_iso_code target_language) with
  | Ok n => Ok (n ++ ".srt")
  | Raise e => Raise e
  end.

(** What the four [f.write] of one entry write. *)
Definition srt_block (encode : string -> string)
    (item : Z * SubtitleEntry) : string :=
  let '(id, result_obj) := item in
  PyStr.str_int id ++ nl
  ++ start_time result_obj ++ " --> " ++ end_time result_obj ++ nl
  ++ encode (text result_obj)
  ++ nl ++ nl.

Definition srt_body (result : SubtitleResult) : string :=
  let encode := if os_name_is_nt E then cp850_replace E else fun t => t in
  String.concat EmptyString (map (srt_block encode) result).

Definition save_result_as_srt (result : SubtitleResult)
    (target_language video_file_name : string) (default_srt_file : bool)
  : M string :=
  let target_language := PyStr.lower target_language in
  srt_file_name <- lift (srt_file_name target_language video_file_name
                           default_srt_file) ;;
  emit (WriteFile srt_file_name (srt_body result)) ;;;
  ret srt_file_name.

(** *** [subtitle] *)

(** The two variables that [print_and_update_progress] shares with the
    body of [subtitle]. *)
Record Steps := mkSteps { current_step : Z; total_steps : Z }.

Definition is_gui (mode : option string) : bool :=
  match mode with Some m => String.eqb m "gui" | None => false end.

Definition print_and_update_progress (mode : option string)
    (update_progress : bool) (st : Steps) : M Steps :=
  if is_gui mode then
    emit (Progress (current_step st) (total_steps st)) ;;;
    if update_progress
    then ret (mkSteps (current_step st + 1) (total_steps st))
    else ret st
  else ret st.

(** [vid_file_map[audio_file]] *)
Definition vid_file (vid_file_map : dict string string)
    (audio_file : string) : M string :=
  match dict_get String.eqb vid_file_map audio_file with
  | Some v => ret v
  | None => raise KeyError audio_file
  end.

Section Loops.
Variable vid_file_map : dict string string.
Variable video_language : string.
Variable translation_languages : list string.
Variable translation_service : string.
Variable translation_service_api_key : option string.
Variable mode : option string.

(** [for translation_lang in translation_languages] *)
Fixpoint translations (r : SubtitleResult) (audio_file : string)
    (langs : list string) (st : Steps) : M Steps :=
  match langs with
  | [] => ret st
  | translation_lang :: rest =>
      print (tab ++ "Translating subtitles to another language: "
             ++ translation_lang) ;;;
      r2 <- translate_transcribed_result r video_language
              translation_lang translation_service
              translation_service_api_key ;;
      print (tab ++ "Done." ++ nl ++ tab ++ "Saving...") ;;;
      st <- print_and_update_progress mode true st ;;
      v <- vid_file vid_file_map audio_file ;;
      saved_file <- save_result_as_srt r2 translation_lang v false ;;
      print (tab ++ "Done. Saved translated result as srt file: "
             ++ saved_file) ;;;
      st <- print_and_update_progress mode true st ;;
      translations r audio_file rest st
  end.

(** [for audio_file in audio_files] *)
Fixpoint inputs (model : option Model) (audio_files : list string)
    (st : Steps) : M Steps :=
  match audio_files with
  | [] => ret st
  | audio_file :: rest =>
      v <- vid_file vid_file_map audio_file ;;
      print ("Transcribing video: " ++ v ++ " in " ++ video_language) ;;;
      r <- transcribe_audio model audio_file video_language ;;
      print ("Done." ++ nl ++ "Saving...") ;;;
      st <- print_and_update_progress mode true st ;;
      v <- vid_file vid_file_map audio_file ;;
      saved_file <- save_result_as_srt r video_language v true ;;
      print ("Done. Saved transcribed result as srt file: "
             ++ saved_file) ;;;
      st <- print_and_update_progress mode true st ;;
      st <- translations r audio_file translation_languages st ;;
      inputs model rest st
  end.
End Loops.

(** The body of [subtitle]; its value is the pair of counters when the
    body ends. *)
Definition subtitle_steps (vid_file_map : dict string string)
    (audio_files : list string) (video_language : string)
    (translation_languages : list string) (translation_service : string)
    (translation_service_api_key : option string)
    (model_size : option string) (mode : option string) : M Steps :=
  let st := mkSteps 1 2 in
  st <- print_and_update_progress mode false st ;;
  model <- init_model model_size ;;
  st <- print_and_update_progress mode true st ;;
  print "Done." ;;;
  let st :=
    mkSteps (current_step st)
      (total_steps st
       + (Z.of_nat (List.length audio_files) * 2
          + Z.of_nat (List.length audio_files)
            * Z.of_nat (List.length translation_languages) * 2)) in
  st <- print_and_update_progress mode false st ;;
  inputs vid_file_map video_language translation_languages
    translation_service translation_service_api_key mode
    model audio_files st.

Definition subtitle (vid_file_map : dict string string)
    (audio_files : list string) (video_language : string)
    (translation_languages : list string) (translation_service : string)
    (translation_service_api_key : option string)
    (model_size : option string) (mode : option string) : M unit :=
  subtitle_steps vid_file_map audio_files video_language
    translation_languages translation_service translation_service_api_key
    model_size mode ;;;
  ret tt.

End Program.

(** ** A small environment for the examples

    Two transcription languages, two translation languages, a GPU on which
    only the sizes up to "medium" fit, an engine that hears two segments,
    and a provider that translates by prefixing the target language. *)

Module Sample.

Definition load (fits : string -> bool) (name : string) (d : Device)
  : Result Model :=
  if fits name then Ok (mkModel name d)
  else Raise (mkExn OutOfMemoryError "CUDA out of memory").

Definition fits_medium (name : string) : bool :=
  existsb (String.eqb name) ["medium"; "small"; "base"; "tiny"].

Definition segments : list Segment :=
  [ mkSegment 0 (0 # 1) (25 # 10) " Hello there. ";
    mkSegment 1 (25 # 10) (3723456 # 1000) " General Kenobi!" ].

Definition target_of (t : TranslatorObj) : string :=
  match t with
  | GoogleTranslator _ tg | DeeplTranslator _ _ tg | YandexTranslator _ _ tg
  | MicrosoftTranslator _ tg | ChatGptTranslator _ tg
  | LibreTranslator _ _ tg _ => tg
  | ProviderName n => n
  end.

Definition env (fits : string -> bool)
    (provider : TranslatorObj -> list string -> Result (list (option string)))
  : Env :=
  {| SUPPORTED_TRANSLATORS :=
       ["google"; "deepl"; "yandex"; "microsoft"; "chatgpt"; "libre-translate"];
     TRANSCRIPTION_SUPPORTED_LANGS := [("english", "en"); ("german", "de")];
     TRANSLATION_SUPPORTED_LANGS := [("spanish", "es"); ("french", "fr")];
     os_name_is_nt := false;
     cp850_replace := fun t => t;
     cuda_is_available := true;
     whisper_load_model := load fits;
     whisper_load_audio := fun _ => Ok (mkAudio [0; 1; -1]);
     model_transcribe := fun _ _ _ => Ok segments;
     deep_translator_init := fun _ => Ok tt;
     deep_translator_translate_batch := provider |}.

(** A provider that answers every text. *)
Definition full (t : TranslatorObj) (batch : list string)
  : Result (list (option string)) :=
  Ok (map (fun x => Some (target_of t ++ ":" ++ x)) batch).

(** A provider that has no answer for the texts after the first. *)
Definition partial (t : TranslatorObj) (batch : list string)
  : Result (list (option string)) :=
  Ok (match batch with
      | [] => []
      | x :: r => Some (target_of t ++ ":" ++ x) :: map (fun _ => None) r
      end).

(** A provider whose answer is one result short. *)
Definition short (t : TranslatorObj) (batch : list string)
  : Result (list (option string)) :=
  Ok (map (fun x => Some (target_of t ++ ":" ++ x)) (removelast batch)).

Definition transcript : SubtitleResult :=
  [ (1, mkEntry "00:00:00,000" "00:00:02,500" "Hello there.");
    (2, mkEntry "00:00:02,500" "01:02:03,456" "General Kenobi!") ].

Definition vid_file_map : dict string string :=
  [("tmp/a.wav", "videos/a.mp4"); ("tmp/b.wav", "videos/b.x.mkv")].

End Sample.


(** ** Reading a trace *)

(** The model sizes that were attempted, in order. *)
Definition loaded_sizes (t : list Event) : list string :=
  flat_map (fun e => match e with LoadModel n _ => [n] | _ => [] end) t.



(** The audio inputs that were read, in order. *)
Definition loaded_audio (t : list Event) : list string :=
  flat_map (fun e => match e with LoadAudio f => [f] | _ => [] end) t.

(** A call of the transcription engine, of a translation provider, or the
    writing of a subtitle file. *)
Definition is_work (e : Event) : bool :=
  match e with
  | Transcribe _ _ _ | TranslateBatch _ _ | WriteFile _ _ => true
  | _ => false
  end.

(** ** Reading a result *)

(** An entry without its text: the id and the two time codes. *)
Definition timing (item : Z * SubtitleEntry) : Z * string * string :=
  (fst item, start_time (snd item), end_time (snd item)).

(** The text the adapter gives to position [i] of its output when the
    provider answered [results]: the result at [i], or the placeholder
    when that result is [None]. *)
Definition answer (results : list (option string)) (i : nat) : string :=
  match nth_error results i with
  | Some (Some t) => t
  | _ => placeholder
  end.

(** The texts of a result, in order: the batch sent to the provider. *)
Definition texts (r : SubtitleResult) : list string :=
  map (fun item => text (snd item)) r.

(** [t] is [s] without its leading and trailing whitespace. *)
Definition trimmed_of (t s : string) : Prop :=
  exists pre post,
    s = pre ++ t ++ post
    /\ PyStr.all_space pre = true /\ PyStr.all_space post = true
    /\ PyStr.opt_space (PyStr.first_char t) = false
    /\ PyStr.opt_space (PyStr.last_char t) = false.

(** The time code of an offset that [format_timestamp] accepts. *)
Definition time_code (x : Q) : string :=
  match Timestamp.format_timestamp x with Some t => t | None => EmptyString end.

Definition formattable (x : Q) : Prop :=
  Timestamp.format_timestamp x <> None.

(** The entry that [post_process_result_for_srt] makes of one segment. *)
Definition entry_of (seg : Segment) : Z * SubtitleEntry :=
  (seg_id seg + 1,
   mkEntry (time_code (seg_start seg)) (time_code (seg_end seg))
     (PyStr.strip (seg_text seg))).

(** ** Reading a run *)



(** The entry of [translated_result] made from one entry of the input. *)
Definition timed (item : Z * SubtitleEntry) : Z * TimedEntry :=
  (fst item, mkTimed (start_time (snd item)) (end_time (snd item))).


Definition is_load_audio (e : Event) : bool :=
  match e with LoadAudio _ => true | _ => false end.

Definition touches_input (e : Event) : bool := is_work e || is_load_audio e.

(** [m] causes no event that [P] selects. *)
Definition avoids {A} (P : Event -> bool) (m : M A) : Prop :=
  forall p, Forall (fun e => P e = false) (trace (m p)).


(** What a run shows through [f]: the events that [f] keeps, and the
    result. *)
Definition view {A X} (f : Event -> list X) (o : Outcome A)
  : list X * Result A :=
  (flat_map f (trace o), result o).

Definition touched_input (e : Event) : list Event :=
  if touches_input e then [e] else [].

Definition advance (gui update : bool) (st : Steps) : Steps :=
  if gui && update then mkSteps (current_step st + 1) (total_steps st) else st.




Definition no_model_error : Exn :=
  mkExn AttributeError "'NoneType' object has no attribute 'transcribe'".

(** The events of a trace that touch an input or do the work of the
    pipeline: audio loads, engine calls, provider calls, files written. *)
Definition touched (t : list Event) : list Event := flat_map touched_input t.

(** ** The functions around the pipeline: discovery of the inputs

    [check_if_file_is_video], [find_vid_files_in_dir], [gen_wav_file], the
    loops of [process_args] that build the inputs of [subtitle], and
    [detect_lang]. Their outside world is a second record of oracles. The
    calls of ffmpeg, [os.walk] and [os.makedirs] leave no event in the
    trace; what these functions print does. *)

(** One stream of a probe: the value at "codec_type", if the key is
    there. *)
Record Stream := mkStream { codec_type : option string }.

(** The result of [ffmpeg.probe]: the list at "streams", if the key is
    there. *)
Record ProbeResult := mkProbe { streams : option (list Stream) }.

(** [TEMP_DIR] and [DIR_DELIM] of the package (the delimiter of paths, one
    character), ffmpeg, [os.walk], which yields (cwd, dirs, files) for
    every directory, and the language detection of a model on a waveform
    ([pad_or_trim], [log_mel_spectrogram] and [model.detect_language],
    which gives the probability of every language). *)
Record Host := mkHost {
  TEMP_DIR : string;
  DIR_DELIM : ascii;
  ffmpeg_probe : string -> Result ProbeResult;
  ffmpeg_run : string -> string -> Result unit;
  os_walk : string -> list (string * list string * list string);
  model_detect_language : Model -> Audio -> Result (dict string Q)
}.

Section Discovery.
Variable E : Env.
Variable H : Host.

Definition delim : string := String (DIR_DELIM H) EmptyString.

(** *** [check_if_file_is_video] *)

(** The [for stream in probe_result["streams"]] loop: [true] is
    [return True], [false] is falling out of the loop. *)
Fixpoint scan_streams (ss : list Stream) : M bool :=
  match ss with
  | [] => ret false
  | stream :: rest =>
      match codec_type stream with
      | None => raise KeyError "'codec_type'"
      | Some c => if String.eqb c "video" then ret true else scan_streams rest
      end
  end.

(** [Some true], [Some false], or [None] for the [None] that the [except]
    branch returns by falling off its end. *)
Definition check_if_file_is_video (file : string) : M (option bool) :=
  try_except
    (probe_result <- lift (ffmpeg_probe H file) ;;
     found <- match streams probe_result with
              | Some ss => scan_streams ss
              | None => ret false
              end ;;
     if found then ret (Some true)
     else
       print ("No video stream(s) were found in File: " ++ file
              ++ ". Skipping it.") ;;;
       ret (Some false))
    (fun e =>
       print ("Error probing file: " ++ file) ;;;
       print (exn_msg e) ;;;
       ret None).

(** The truth value of what [check_if_file_is_video] returns. *)
Definition truthy (r : option bool) : bool :=
  match r with Some true => true | _ => false end.

(** *** [find_vid_files_in_dir] *)

(** The comprehension over the files of one directory, [files_list] being
    the list built so far. *)
Fixpoint append_videos (cwd : string) (files : list string)
    (files_list : list string) : M (list string) :=
  match files with
  | [] => ret files_list
  | afile :: rest =>
      r <- check_if_file_is_video (cwd ++ delim ++ afile) ;;
      append_videos cwd rest
        (if truthy r then files_list ++ [cwd ++ delim ++ afile]
         else files_list)
  end.

Fixpoint walk_videos (walk : list (string * list string * list string))
    (files_list : list string) : M (list string) :=
  match walk with
  | [] => ret files_list
  | (cwd, dirs, files) :: rest =>
      files_list <- append_videos cwd files files_list ;;
      walk_videos rest files_list
  end.

Definition find_vid_files_in_dir (target_dir : string) : M (list string) :=
  walk_videos (os_walk H target_dir) [].

(** *** [gen_wav_file] *)

(** [vid_file.split(DIR_DELIM)[-1]] *)
Definition last_component (vid_file : string) : string :=
  List.last (PyStr.split (DIR_DELIM H) vid_file) EmptyString.

Definition wav_name (vid_file : string) : string :=
  TEMP_DIR H ++ delim ++ base_name (last_component vid_file) ++ ".wav".

(** The dictionary is changed in place: the new [file_map] is returned
    beside the name. *)
Definition gen_wav_file (vid_file : string) (file_map : dict string string)
  : M (string * dict string string) :=
  let output_audio_file := wav_name vid_file in
  let file_map := dict_set String.eqb file_map output_audio_file vid_file in
  lift (ffmpeg_run H vid_file output_audio_file) ;;;
  print ("generated wav file for " ++ vid_file ++ " in " ++ TEMP_DIR H) ;;;
  ret (output_audio_file, file_map).

(** *** The loops of [process_args] *)

(** [for f in ...: audio_files.append(gen_wav_file(f, vid_file_map))] *)
Fixpoint gen_wav_files (vids : list string)
    (vid_file_map : dict string string) (audio_files : list string)
  : M (dict string string * list string) :=
  match vids with
  | [] => ret (vid_file_map, audio_files)
  | f :: rest =>
      r <- gen_wav_file f vid_file_map ;;
      gen_wav_files rest (snd r) (audio_files ++ [fst r])
  end.

(** [[f for f in args.video_files if check_if_file_is_video(f)]] *)
Fixpoint checked_videos (video_files : list string) : M (list string) :=
  match video_files with
  | [] => ret []
  | f :: rest =>
      r <- check_if_file_is_video f ;;
      vs <- checked_videos rest ;;
      ret (if truthy r then f :: vs else vs)
  end.

(** [process_args] up to its call of [subtitle]: the map and the list it
    passes on. [None] is an argument that was not given. *)
Definition process_args_inputs (video_files : option (list string))
    (video_dir : option string) : M (dict string string * list string) :=
  match video_files, video_dir with
  | None, Some d =>
      vids <- find_vid_files_in_dir d ;;
      gen_wav_files vids [] []
  | None, None =>
      raise TypeError "expected str, bytes or os.PathLike object, not NoneType"
  | Some fs, None =>
      vids <- checked_videos fs ;;
      gen_wav_files vids [] []
  | Some _, Some _ => ret ([], [])
  end.

(** *** [detect_lang] *)

(** [max(p, key=p.get)] once a first item is held: a later item replaces
    it only if its value is greater. *)
Fixpoint max_from (best : string * Q) (items : list (string * Q)) : string :=
  match items with
  | [] => fst best
  | (k, v) :: rest =>
      if Qle_bool v (snd best) then max_from best rest
      else max_from (k, v) rest
  end.

Definition max_key (p : dict string Q) : M string :=
  match p with
  | [] => raise Exception "max() arg is an empty sequence" (* a ValueError *)
  | item :: rest => ret (max_from item rest)
  end.

Definition detect_lang (model : option Model) (audio_file : string)
  : M string :=
  emit (LoadAudio audio_file) ;;;
  audio <- lift (whisper_load_audio E audio_file) ;;
  match model with
  | None => raise AttributeError "'NoneType' object has no attribute 'device'"
  | Some m =>
      p <- lift (model_detect_language H m audio) ;;
      max_key p
  end.

End Discovery.

(** ** Reading the work of a run *)

(** The target language that a translator object was built with. *)
Definition target (t : TranslatorObj) : string :=
  match t with
  | GoogleTranslator _ tg | DeeplTranslator _ _ tg | YandexTranslator _ _ tg
  | MicrosoftTranslator _ tg | ChatGptTranslator _ tg
  | LibreTranslator _ _ tg _ => tg
  | ProviderName n => n
  end.

(** The steps of the pipeline that a trace shows: an input read, an
    engine call, a provider call, a file written. *)
Inductive Step :=
| Load (audio_file : string)
| Recognise (language : string)
| Translate (target_language : string)
| Save (srt_file_name : string).

Definition step_of (e : Event) : list Step :=
  match e with
  | LoadAudio f => [Load f]
  | Transcribe _ _ language => [Recognise language]
  | TranslateBatch t _ => [Translate (target t)]
  | WriteFile n _ => [Save n]
  | _ => []
  end.

Definition schedule (t : list Event) : list Step := flat_map step_of t.

(** [vid_file_map[audio_file]], and the name of the subtitle file of a
    video in a language, where they exist. *)
Definition video (vid_file_map : dict string string) (audio_file : string)
  : string :=
  match dict_get String.eqb vid_file_map audio_file with
  | Some v => v
  | None => EmptyString
  end.

Definition srt_name (E : Env) (video_file_name language : string)
    (default_srt_file : bool) : string :=
  match srt_file_name E (PyStr.lower language) video_file_name
          default_srt_file with
  | Ok n => n
  | Raise _ => EmptyString
  end.

(** The steps of one input in a run that ends normally. *)
Definition input_steps (E : Env) (vid_file_map : dict string string)
    (video_language : string) (translation_languages : list string)
    (audio_file : string) : list Step :=
  let v := video vid_file_map audio_file in
  Load audio_file
  :: Recognise (PyStr.lower video_language)
  :: Save (srt_name E v video_language true)
  :: flat_map (fun l => [Translate l; Save (srt_name E v l false)])
       translation_languages.

(** ** Reading strings *)

(** [c in s] *)
Fixpoint contains (c : ascii) (s : string) : bool :=
  match s with
  | EmptyString => false
  | String c' r => Ascii.eqb c' c || contains c r
  end.

(** ** Reading files, segments and providers *)

(** The text that [f.write] gets for an entry's "text". *)
Definition written_text (E : Env) : string -> string :=
  if os_name_is_nt E then cp850_replace E else fun t => t.

Definition one_line (s : string) : Prop :=
  contains (ascii_of_nat 10) s = false.

(** The four lines of one entry. *)
Definition entry_lines (E : Env) (item : Z * SubtitleEntry) : list string :=
  [ PyStr.str_int (fst item);
    start_time (snd item) ++ " --> " ++ end_time (snd item);
    written_text E (text (snd item));
    EmptyString ].

(** The last segment that carries the id [k - 1]. *)
Definition last_with_id (segments : list Segment) (k : Z) : option Segment :=
  find (fun seg => seg_id seg + 1 =? k) (rev segments).

(** [translator] is one of the objects of deep_translator. *)
Definition is_provider (t : TranslatorObj) : bool :=
  match t with ProviderName _ => false | _ => true end.

Definition handled_providers : list string :=
  ["google"; "deepl"; "yandex"; "microsoft"; "chatgpt"; "libre-translate"].

Definition is_video (s : Stream) : bool :=
  match codec_type s with Some c => String.eqb c "video" | None => false end.

Definition no_video_msg (file : string) : string :=
  "No video stream(s) were found in File: " ++ file ++ ". Skipping it.".

(** What [if check_if_file_is_video(path)] decides. *)
Definition is_video_file (H : Host) (path : string) : bool :=
  match result (check_if_file_is_video H path None) with
  | Ok r => truthy r
  | Raise _ => false
  end.

(** The paths that [find_vid_files_in_dir] looks at, in order. *)
Definition candidates (H : Host) (target_dir : string) : list string :=
  flat_map (fun entry => map (fun afile => fst (fst entry) ++ delim H ++ afile)
                           (snd entry))
    (os_walk H target_dir).

(** Every key of the map is the audio name of its video. *)
Definition names_audio (H : Host) (m : dict string string) : Prop :=
  forall k v, dict_get String.eqb m k = Some v -> wav_name H v = k.

(** [k] holds the greatest value of [items], and is the first key that
    does. *)
Definition first_maximum (k : string) (items : list (string * Q)) : Prop :=
  exists v before after,
    items = (before ++ (k, v) :: after)%list
    /\ Forall (fun it => (snd it < v)%Q) before
    /\ Forall (fun it => (snd it <= v)%Q) after.

(** ** A small host for the examples

    A directory with a video, a song and a text file that ffmpeg cannot
    probe; a detector that hears German and English equally likely. *)

Module SampleHost.

Definition probe (file : string) : Result ProbeResult :=
  if String.eqb file "videos/a.mp4" then
    Ok (mkProbe (Some [mkStream (Some "audio"); mkStream (Some "video")]))
  else if String.eqb file "videos/song.mp3" then
    Ok (mkProbe (Some [mkStream (Some "audio")]))
  else Raise (mkExn Exception "ffprobe error (see stderr output for detail)").

Definition host : Host :=
  {| TEMP_DIR := "tmp";
     DIR_DELIM := "/";
     ffmpeg_probe := probe;
     ffmpeg_run := fun _ _ => Ok tt;
     os_walk := fun d => [(d, [], ["a.mp4"; "song.mp3"; "notes.txt"])];
     model_detect_language :=
       fun _ _ => Ok [("fr", 1 # 10); ("de", 4 # 10); ("en", 4 # 10);
                      ("es", 1 # 10)]%Q |}.

(** The sample environment with one more provider in the supported set,
    one that [init_translator] has no branch for. *)
Definition env_with_papago : Env :=
  let E := Sample.env Sample.fits_medium Sample.full in
  {| SUPPORTED_TRANSLATORS := "papago" :: SUPPORTED_TRANSLATORS E;
     TRANSCRIPTION_SUPPORTED_LANGS := TRANSCRIPTION_SUPPORTED_LANGS E;
     TRANSLATION_SUPPORTED_LANGS := TRANSLATION_SUPPORTED_LANGS E;
     os_name_is_nt := os_name_is_nt E;
     cp850_replace := cp850_replace E;
     cuda_is_available := cuda_is_available E;
     whisper_load_model := whisper_load_model E;
     whisper_load_audio := whisper_load_audio E;
     model_transcribe := model_transcribe E;
     deep_translator_init := deep_translator_init E;
     deep_translator_translate_batch := deep_translator_translate_batch E |}.

(** Two segments that carry the same id. *)
Definition repeated : list Segment :=
  [ mkSegment 0 (0 # 1) (1 # 1) "first";
    mkSegment 0 (1 # 1) (2 # 1) "second" ].

End SampleHost.

(** * Properties *)

(** ** The definitions on concrete inputs *)

Example format_timestamp_ex1 :
  Timestamp.format_timestamp (3723456 # 1000)%Q = Some "01:02:03,456".
Proof. reflexivity. Qed.

Example format_timestamp_ex2 :
  Timestamp.format_timestamp (inject_Z 86400) = Some "00:00:00,000".
Proof. reflexivity. Qed.

Example strip_ex : PyStr.strip "  a b  " = "a b".
Proof. reflexivity. Qed.

Example split_ex : PyStr.split "." "a.b.mp4" = ["a"; "b"; "mp4"].
Proof. reflexivity. Qed.

(** ** Strings *)

Lemma lower_char_idem (c : ascii) :
  PyStr.lower_char (PyStr.lower_char c) = PyStr.lower_char c.
Proof.
  destruct c as [[] [] [] [] [] [] [] []]; vm_compute; reflexivity.
Qed.

Lemma lower_idem (s : string) : PyStr.lower (PyStr.lower s) = PyStr.lower s.
Proof.
  induction s as [|c r IH]; simpl; [reflexivity|].
  now rewrite lower_char_idem, IH.
Qed.

(** ** Dictionaries *)

Section DictFacts.
Variable V : Type.

Lemma dict_get_in (d : dict string V) (k : string) (v : V) :
  dict_get String.eqb d k = Some v -> In k (keys d).
Proof.
  induction d as [|[k' v'] r IH]; simpl; [discriminate|].
  destruct (String.eqb_spec k k') as [->|_]; auto.
Qed.

Lemma dict_mem_in (d : dict string V) (k : string) :
  dict_mem String.eqb d k = true -> In k (keys d).
Proof.
  unfold dict_mem. destruct (dict_get String.eqb d k) eqn:G; [|discriminate].
  intros _. eapply dict_get_in; eauto.
Qed.

Lemma dict_mem_get_none (d : dict string V) (k : string) :
  dict_mem String.eqb d k = false -> dict_get String.eqb d k = None.
Proof.
  unfold dict_mem. now destruct (dict_get String.eqb d k).
Qed.
End DictFacts.

(** ** Configuration errors come before any call *)

(** C7. With a provider other than "google" and no credential, or with a
    provider outside the supported set, [translate_transcribed_result]
    raises a configuration error; its trace is empty, so no
    [translate_batch] (and no other call) was made, and the preference
    file is untouched. *)
Theorem translate_config_error_before_any_call
    (E : Env) (transcribed_result : SubtitleResult)
    (transcribed_language target_language translator : string)
    (api_key : option string) (p : option string) :
  (translator <> "google" /\ api_key = None)
  \/ ~ In translator (SUPPORTED_TRANSLATORS E) ->
  exists msg,
    translate_transcribed_result E transcribed_result transcribed_language
      target_language translator api_key p
    = mkOutcome (Raise (mkExn Exception msg)) p []
    /\ (msg = unsupported_translator_msg \/ msg = api_key_msg)
    /\ (~ In translator (SUPPORTED_TRANSLATORS E) ->
        msg = unsupported_translator_msg).
Proof.
  intros H.
  unfold translate_transcribed_result, init_translator, bind.
  destruct (existsb (String.eqb translator) (SUPPORTED_TRANSLATORS E)) eqn:Hs.
  - assert (Hin : In translator (SUPPORTED_TRANSLATORS E)).
    { apply existsb_exists in Hs. destruct Hs as [x [Hx Hxe]].
      apply String.eqb_eq in Hxe. now subst. }
    destruct H as [[Hg ->]|Hn]; [|contradiction].
    simpl negb. cbv iota.
    destruct (String.eqb_spec translator "google") as [->|_]; [congruence|].
    exists api_key_msg. simpl. intuition.
  - exists unsupported_translator_msg. simpl. intuition.
Qed.

Lemma translate_config_error_witness :
  exists msg,
    translate_transcribed_result (Sample.env Sample.fits_medium Sample.full)
      Sample.transcript "english" "spanish" "deepl" None None
    = mkOutcome (Raise (mkExn Exception msg)) None []
    /\ (msg = unsupported_translator_msg \/ msg = api_key_msg)
    /\ (~ In "deepl"
            (SUPPORTED_TRANSLATORS (Sample.env Sample.fits_medium Sample.full)) ->
        msg = unsupported_translator_msg).
Proof.
  apply (translate_config_error_before_any_call
           (Sample.env Sample.fits_medium Sample.full) Sample.transcript
           "english" "spanish" (translator := "deepl") (api_key := None) None).
  left. split; [discriminate | reflexivity].
Defined.

(** C8. A declared language that matches no key of the transcription
    vocabulary, case ignored, makes [transcribe_audio] raise the
    unsupported-language error; its trace is empty, so the audio was not
    loaded and the engine was not called. *)
Theorem transcribe_unsupported_language_fails_fast
    (E : Env) (model : option Model) (audio_file language : string)
    (p : option string) :
  (forall k, In k (keys (TRANSCRIPTION_SUPPORTED_LANGS E)) ->
             PyStr.lower k <> PyStr.lower language) ->
  transcribe_audio E model audio_file language p
  = mkOutcome (Raise (mkExn Exception unsupported_language_msg)) p [].
Proof.
  intros H. unfold transcribe_audio.
  destruct (dict_mem String.eqb (TRANSCRIPTION_SUPPORTED_LANGS E)
              (PyStr.lower language)) eqn:Hm; [|reflexivity].
  apply dict_mem_in in Hm. apply H in Hm.
  now rewrite lower_idem in Hm.
Qed.

Lemma transcribe_unsupported_language_witness :
  transcribe_audio (Sample.env Sample.fits_medium Sample.full)
    (Some (mkModel "tiny" cpu)) "tmp/a.wav" "Klingon" None
  = mkOutcome (Raise (mkExn Exception unsupported_language_msg)) None [].
Proof.
  apply (transcribe_unsupported_language_fails_fast
           (Sample.env Sample.fits_medium Sample.full)).
  intros k [<-|[<-|[]]]; vm_compute; discriminate.
Defined.

(** ** The Subtitle Writer and languages without an ISO code *)

(** C10, as claimed, fails: "klingon" is in neither vocabulary of the
    sample environment, and [save_result_as_srt] returns no file name for
    it; it raises a [TypeError] and writes nothing. *)
Lemma save_unknown_language_raises :
  let E := Sample.env Sample.fits_medium Sample.full in
  dict_mem String.eqb (TRANSCRIPTION_SUPPORTED_LANGS E) "klingon" = false
  /\ dict_mem String.eqb (TRANSLATION_SUPPORTED_LANGS E) "klingon" = false
  /\ get_lang_iso_code E "klingon" = None
  /\ ~ (exists srt_file_name,
          result (save_result_as_srt E Sample.transcript "klingon"
                    "videos/a.mp4" false None) = Ok srt_file_name)
  /\ save_result_as_srt E Sample.transcript "klingon" "videos/a.mp4" false None
     = mkOutcome (Raise type_error_none) None [].
Proof.
  cbv zeta. repeat split; try reflexivity.
  intros [n Hn]. vm_compute in Hn. discriminate.
Qed.

(** C10, amended. For a language whose lower-cased name is in neither
    vocabulary the ISO-code lookup yields [None], and
    [save_result_as_srt] raises a [TypeError] while it builds the file
    name, for the default and the translated track alike: no file is
    written and no name is returned. *)
Theorem save_unknown_language_type_error
    (E : Env) (r : SubtitleResult) (target_language video_file_name : string)
    (default_srt_file : bool) (p : option string) :
  dict_mem String.eqb (TRANSCRIPTION_SUPPORTED_LANGS E)
    (PyStr.lower target_language) = false ->
  dict_mem String.eqb (TRANSLATION_SUPPORTED_LANGS E)
    (PyStr.lower target_language) = false ->
  get_lang_iso_code E (PyStr.lower target_language) = None
  /\ save_result_as_srt E r target_language video_file_name default_srt_file p
     = mkOutcome (Raise type_error_none) p [].
Proof.
  intros H1 H2.
  assert (G : get_lang_iso_code E (PyStr.lower target_language) = None).
  { unfold get_lang_iso_code. now rewrite H1, H2. }
  split; [exact G|].
  unfold save_result_as_srt, srt_file_name, bind, lift. simpl.
  rewrite G. reflexivity.
Qed.

Lemma save_unknown_language_type_error_witness :
  let E := Sample.env Sample.fits_medium Sample.full in
  get_lang_iso_code E (PyStr.lower "Klingon") = None
  /\ save_result_as_srt E Sample.transcript "Klingon" "videos/a.mp4" true None
     = mkOutcome (Raise type_error_none) None [].
Proof.
  apply (save_unknown_language_type_error
           (Sample.env Sample.fits_medium Sample.full) Sample.transcript
           "Klingon" "videos/a.mp4" true None); reflexivity.
Defined.

(** ** The Language Acquisition Service *)






(** ** The Translation Adapter *)

Lemma dict_set_fresh (V : Type) (d : dict Z V) (k : Z) (v : V) :
  ~ In k (keys d) -> dict_set Z.eqb d k v = (d ++ [(k, v)])%list.
Proof.
  induction d as [|[k' v'] r IH]; simpl; intros H; [reflexivity|].
  destruct (Z.eqb_spec k k') as [->|_]; [tauto|].
  rewrite IH; tauto.
Qed.

Lemma copy_times_spec (items : SubtitleResult) :
  forall (acc : dict Z TimedEntry) (cache : list string),
    NoDup (keys acc ++ keys items) ->
    copy_times items acc cache
    = ((acc ++ map timed items)%list, (cache ++ texts items)%list).
Proof.
  induction items as [|[id e] rest IH]; intros acc cache H; simpl.
  - now rewrite !app_nil_r.
  - assert (Hfresh : ~ In id (keys acc)).
    { intros Hin. apply NoDup_remove_2 in H. apply H.
      apply in_or_app. now left. }
    rewrite dict_set_fresh by exact Hfresh.
    rewrite IH.
    + unfold timed at 2. simpl. now rewrite <- !app_assoc.
    + unfold keys in *. rewrite map_app. simpl. rewrite <- app_assoc.
      exact H.
Qed.

Lemma fill_texts_frame (items : dict Z TimedEntry) :
  forall (cache : list (option string)) (out : SubtitleResult),
    fill_texts items cache = Ok out ->
    map timing out
    = map (fun it => (fst it, t_start_time (snd it), t_end_time (snd it)))
        items.
Proof.
  induction items as [|[id e] rest IH]; intros cache out H; simpl in H.
  - now inversion H.
  - destruct cache as [|temp cache']; [discriminate|].
    destruct (fill_texts rest cache') as [r|] eqn:Hr; [|discriminate].
    inversion H; subst. simpl. f_equal. eapply IH; eauto.
Qed.

Lemma fill_texts_enough (items : dict Z TimedEntry) :
  forall (cache : list (option string)),
    (List.length items <= List.length cache)%nat ->
    exists out,
      fill_texts items cache = Ok out
      /\ List.length out = List.length items
      /\ forall i id e,
           nth_error items i = Some (id, e) ->
           nth_error out i
           = Some (id, mkEntry (t_start_time e) (t_end_time e)
                         (answer cache i)).
Proof.
  induction items as [|[id e] rest IH]; intros cache H; simpl.
  - exists []. repeat split; auto. intros [|i]; discriminate.
  - destruct cache as [|temp cache']; simpl in H; [lia|].
    destruct (IH cache') as (out & Hout & Hlen & Hnth); [lia|].
    rewrite Hout. eexists. split; [reflexivity|]. split; [simpl; lia|].
    intros [|i] id' e' Hi; simpl in Hi.
    + inversion Hi; subst. unfold answer. simpl. now destruct temp.
    + simpl. rewrite (Hnth _ _ _ Hi). reflexivity.
Qed.

Lemma fill_texts_short (items : dict Z TimedEntry) :
  forall (cache : list (option string)),
    (List.length cache < List.length items)%nat ->
    fill_texts items cache = Raise (mkExn IndexError "pop from empty list").
Proof.
  induction items as [|[id e] rest IH]; intros cache H; simpl in *; [lia|].
  destruct cache as [|temp cache']; [reflexivity|].
  simpl in H. rewrite IH by lia. reflexivity.
Qed.

Lemma construct_pure (E : Env) (t : TranslatorObj) (p : option string) :
  construct E t p = mkOutcome (result (construct E t p)) p [].
Proof.
  unfold construct, bind, lift, ret. simpl.
  now destruct (deep_translator_init E t).
Qed.

Lemma init_translator_pure (E : Env) (translator src tgt : string)
    (api_key p : option string) :
  init_translator E translator src tgt api_key p
  = mkOutcome (result (init_translator E translator src tgt api_key p)) p [].
Proof.
  unfold init_translator.
  repeat match goal with
         | |- context [if ?b then _ else _] => destruct b
         | |- context [match api_key with _ => _ end] => destruct api_key
         end;
    try reflexivity; apply construct_pure.
Qed.

(** The adapter once the translator is built: the provider's call and the
    second loop. *)
Lemma translate_unfold (E : Env) (tr : SubtitleResult)
    (src tgt translator : string) (api_key p : option string)
    (t : TranslatorObj) :
  NoDup (keys tr) ->
  result (init_translator E translator src tgt api_key p) = Ok t ->
  result (translate_transcribed_result E tr src tgt translator api_key p)
  = match result (translate_batch E t (texts tr) p) with
    | Ok results => fill_texts (map timed tr) results
    | Raise e => Raise e
    end.
Proof.
  intros Hnd Ht. unfold translate_transcribed_result, bind at 1.
  rewrite init_translator_pure, Ht. cbv beta iota. simpl result at 1.
  simpl model_pref_file.
  rewrite (copy_times_spec tr [] []) by exact Hnd. simpl app.
  unfold bind. simpl.
  destruct (result (translate_batch E t (texts tr) p)); reflexivity.
Qed.

(** C1, as claimed, fails: the sample provider [Sample.short] returns one
    result for a batch of two texts, and the adapter gives no output of
    two entries with a placeholder in the unmatched position; [pop(0)] on
    the emptied list raises [IndexError]. *)
Lemma translate_fewer_results_raises :
  let E := Sample.env Sample.fits_medium Sample.short in
  let o := translate_transcribed_result E Sample.transcript
             "english" "spanish" "google" None None in
  deep_translator_translate_batch E (GoogleTranslator "english" "spanish")
    (texts Sample.transcript) = Ok [Some "spanish:Hello there."]
  /\ List.length Sample.transcript = 2%nat
  /\ result o = Raise (mkExn IndexError "pop from empty list")
  /\ ~ (exists out, result o = Ok out /\ List.length out = 2%nat).
Proof.
  cbv zeta. repeat split.
  intros [out [H _]]. vm_compute in H. discriminate.
Qed.

(** C1, amended. Let the provider answer a batch of n texts with the list
    [results]. If [results] has at least n entries, the output has exactly
    n entries, and entry i has the id and the time codes of input i and,
    as its text, result i, or the one-character placeholder when result i
    is [None]. If [results] has fewer than n entries the adapter raises
    [IndexError] and there is no output. *)
Theorem translate_output_positions
    (E : Env) (transcribed_result : SubtitleResult)
    (transcribed_language target_language translator : string)
    (api_key p : option string)
    (t : TranslatorObj) (results : list (option string)) :
  NoDup (keys transcribed_result) ->
  result (init_translator E translator transcribed_language target_language
            api_key p) = Ok t ->
  result (translate_batch E t (texts transcribed_result) p) = Ok results ->
  let n := List.length transcribed_result in
  let o := translate_transcribed_result E transcribed_result
             transcribed_language target_language translator api_key p in
  ((n <= List.length results)%nat ->
   exists out,
     result o = Ok out
     /\ List.length out = n
     /\ forall i id e,
          nth_error transcribed_result i = Some (id, e) ->
          nth_error out i
          = Some (id, mkEntry (start_time e) (end_time e) (answer results i)))
  /\ ((List.length results < n)%nat ->
      result o = Raise (mkExn IndexError "pop from empty list"))
  /\ String.length placeholder = 1%nat.
Proof.
  intros Hnd Ht Hb. cbv zeta.
  rewrite (translate_unfold E transcribed_result _ _ _ _ _ Hnd Ht), Hb.
  split; [|split; [|reflexivity]].
  - intros Hlen.
    destruct (fill_texts_enough (map timed transcribed_result) results)
      as (out & Hout & Hl & Hnth).
    { now rewrite length_map. }
    exists out. split; [exact Hout|]. split.
    { now rewrite Hl, length_map. }
    intros i id e Hi.
    apply (Hnth i id (mkTimed (start_time e) (end_time e))).
    rewrite nth_error_map, Hi. reflexivity.
  - intros Hlen. apply fill_texts_short. now rewrite length_map.
Qed.

Lemma translate_output_positions_witness :
  let E := Sample.env Sample.fits_medium Sample.partial in
  let o := translate_transcribed_result E Sample.transcript
             "english" "spanish" "google" None None in
  exists out,
    result o = Ok out
    /\ List.length out = 2%nat
    /\ forall i id e,
         nth_error Sample.transcript i = Some (id, e) ->
         nth_error out i
         = Some (id, mkEntry (start_time e) (end_time e)
                       (answer [Some "spanish:Hello there."; None] i)).
Proof.
  refine (proj1 (translate_output_positions
            (Sample.env Sample.fits_medium Sample.partial) Sample.transcript
            "english" "spanish" "google" None None
            (t := GoogleTranslator "english" "spanish")
            (results := [Some "spanish:Hello there."; None]) _ _ _) _).
  - repeat constructor; simpl; intuition discriminate.
  - reflexivity.
  - reflexivity.
  - simpl. lia.
Defined.

(** C3. Whenever [translate_transcribed_result] returns, its result has
    the ids of the transcription, in the same order, and at every id the
    same start and end time codes: erasing the texts makes the two
    results equal. *)
Theorem translate_preserves_ids_and_times
    (E : Env) (transcribed_result out : SubtitleResult)
    (transcribed_language target_language translator : string)
    (api_key p : option string) :
  NoDup (keys transcribed_result) ->
  result (translate_transcribed_result E transcribed_result
            transcribed_language target_language translator api_key p)
  = Ok out ->
  keys out = keys transcribed_result
  /\ map timing out = map timing transcribed_result.
Proof.
  intros Hnd Hout.
  assert (Ht : exists t,
             result (init_translator E translator transcribed_language
                       target_language api_key p) = Ok t).
  { unfold translate_transcribed_result, bind at 1 in Hout.
    destruct (result (init_translator E translator transcribed_language
                        target_language api_key p)) as [t|e] eqn:Hi.
    - now exists t.
    - simpl in Hout. discriminate. }
  destruct Ht as [t Ht].
  rewrite (translate_unfold E transcribed_result _ _ _ _ _ Hnd Ht) in Hout.
  destruct (result (translate_batch E t (texts transcribed_result) p))
    as [results|e]; [|discriminate].
  apply fill_texts_frame in Hout. rewrite map_map in Hout.
  assert (Hm : map timing out = map timing transcribed_result).
  { rewrite Hout. apply map_ext. now intros [id e]. }
  split; [|exact Hm].
  unfold keys.
  replace (@fst Z SubtitleEntry) with (fun x => fst (fst (timing x))).
  - rewrite <- (map_map timing (fun y => fst (fst y))), Hm.
    now rewrite map_map.
  - reflexivity.
Qed.

Lemma translate_preserves_ids_and_times_witness :
  let E := Sample.env Sample.fits_medium Sample.partial in
  let out := [ (1, mkEntry "00:00:00,000" "00:00:02,500" "spanish:Hello there.");
               (2, mkEntry "00:00:02,500" "01:02:03,456" ".") ] in
  keys out = keys Sample.transcript
  /\ map timing out = map timing Sample.transcript.
Proof.
  apply (translate_preserves_ids_and_times
           (Sample.env Sample.fits_medium Sample.partial) Sample.transcript
           "english" "spanish" "google" None None).
  - repeat constructor; simpl; intuition discriminate.
  - reflexivity.
Defined.

(** ** The Segment Normalizer *)

Lemma lstrip_spec (s : string) :
  exists pre,
    s = pre ++ PyStr.lstrip s
    /\ PyStr.all_space pre = true
    /\ PyStr.opt_space (PyStr.first_char (PyStr.lstrip s)) = false.
Proof.
  induction s as [|c r (pre & Heq & Hsp & Hf)]; simpl.
  - exists EmptyString. auto.
  - destruct (PyStr.isspace c) eqn:Hc.
    + exists (String c pre). simpl. rewrite Hc, Hsp, <- Heq. auto.
    + exists EmptyString. simpl. auto.
Qed.

Lemma rstrip_spec (s : string) :
  exists post,
    s = PyStr.rstrip s ++ post
    /\ PyStr.all_space post = true
    /\ PyStr.opt_space (PyStr.last_char (PyStr.rstrip s)) = false.
Proof.
  induction s as [|c r (post & Heq & Hsp & Hl)]; simpl.
  - exists EmptyString. auto.
  - destruct (PyStr.rstrip r) as [|c' r'] eqn:Hr.
    + simpl in Heq. subst r. destruct (PyStr.isspace c) eqn:Hc.
      * exists (String c post). simpl. rewrite Hc, Hsp. auto.
      * exists post. simpl. rewrite Hc. auto.
    + exists post. simpl. rewrite Heq at 1. auto.
Qed.

Lemma rstrip_first (s : string) :
  PyStr.opt_space (PyStr.first_char s) = false ->
  PyStr.opt_space (PyStr.first_char (PyStr.rstrip s)) = false.
Proof.
  destruct s as [|c r]; simpl; [auto|]. intros Hc.
  destruct (PyStr.rstrip r); [|exact Hc].
  now rewrite Hc.
Qed.

Lemma strip_trimmed (s : string) : trimmed_of (PyStr.strip s) s.
Proof.
  destruct (lstrip_spec s) as (pre & Hpre & Hsp & Hf).
  destruct (rstrip_spec (PyStr.lstrip s)) as (post & Hpost & Hsq & Hl).
  exists pre, post. unfold PyStr.strip.
  rewrite <- Hpost, <- Hpre. repeat split; auto using rstrip_first.
Qed.

Lemma format_timestamp_time_code (x : Q) :
  formattable x -> format_timestamp x = Ok (time_code x).
Proof.
  unfold formattable, format_timestamp, time_code.
  now destruct (Timestamp.format_timestamp x).
Qed.

Lemma post_process_segments_spec (segments : list Segment) :
  forall (acc : SubtitleResult),
    NoDup (keys acc ++ map (fun seg => seg_id seg + 1) segments) ->
    Forall (fun seg => formattable (seg_start seg)
                       /\ formattable (seg_end seg)) segments ->
    post_process_segments segments acc
    = Ok (acc ++ map entry_of segments)%list.
Proof.
  induction segments as [|seg rest IH]; intros acc Hnd Hf; simpl.
  - now rewrite app_nil_r.
  - inversion Hf as [|? ? [Hs He] Hrest]; subst.
    rewrite (format_timestamp_time_code Hs), (format_timestamp_time_code He).
    assert (Hfresh : ~ In (seg_id seg + 1) (keys acc)).
    { intros Hin. apply NoDup_remove_2 in Hnd. apply Hnd.
      apply in_or_app. now left. }
    rewrite dict_set_fresh by exact Hfresh.
    rewrite IH; [|idtac|exact Hrest].
    + unfold entry_of at 2. now rewrite <- app_assoc.
    + unfold keys in *. rewrite map_app. simpl. rewrite <- app_assoc.
      exact Hnd.
Qed.

Lemma NoDup_succ_of_nat (a n : nat) :
  NoDup (map (fun z => z + 1) (map Z.of_nat (seq a n))).
Proof.
  rewrite map_map. apply Injective_map_NoDup.
  - intros x y H. lia.
  - apply seq_NoDup.
Qed.

(** C4. Let the raw segments carry their zero-based positions as ids, and
    offsets that [format_timestamp] accepts. Then
    [post_process_result_for_srt] returns a mapping whose ids are 1..n in
    input order, entry i coming from segment i alone: its text is the
    segment's text stripped, that is, without its leading and trailing
    whitespace, and its time codes are the formatted offsets. *)
Theorem post_process_ids_and_texts (segments : list Segment) :
  let n := List.length segments in
  map seg_id segments = map Z.of_nat (seq 0 n) ->
  Forall (fun seg => formattable (seg_start seg)
                     /\ formattable (seg_end seg)) segments ->
  exists r,
    post_process_result_for_srt segments = Ok r
    /\ keys r = map Z.of_nat (seq 1 n)
    /\ forall i seg,
         nth_error segments i = Some seg ->
         exists e,
           nth_error r i = Some (Z.of_nat (S i), e)
           /\ text e = PyStr.strip (seg_text seg)
           /\ trimmed_of (text e) (seg_text seg)
           /\ format_timestamp (seg_start seg) = Ok (start_time e)
           /\ format_timestamp (seg_end seg) = Ok (end_time e).
Proof.
  intros n Hids Hf.
  assert (Hkeys : map (fun seg => seg_id seg + 1) segments
                  = map (fun z => z + 1) (map Z.of_nat (seq 0 n))).
  { rewrite <- Hids. now rewrite map_map. }
  exists (map entry_of segments). split; [|split].
  - unfold post_process_result_for_srt.
    rewrite post_process_segments_spec; [reflexivity| |exact Hf].
    simpl. rewrite Hkeys. apply NoDup_succ_of_nat.
  - unfold keys. rewrite map_map. simpl.
    change (map (fun x => seg_id x + 1) segments
            = map Z.of_nat (seq 1 n)).
    rewrite Hkeys, <- seq_shift, !map_map.
    apply map_ext. intros a. lia.
  - intros i seg Hi.
    exists (snd (entry_of seg)). simpl.
    assert (Hid : seg_id seg = Z.of_nat i).
    { assert (H1 : nth_error (map seg_id segments) i = Some (seg_id seg))
        by (rewrite nth_error_map, Hi; reflexivity).
      rewrite Hids, nth_error_map in H1.
      assert (Hlt : (i < n)%nat)
        by (apply nth_error_Some; rewrite Hi; discriminate).
      rewrite (nth_error_nth' _ 0%nat) in H1 by (now rewrite length_seq).
      rewrite seq_nth in H1 by exact Hlt. simpl in H1. now inversion H1. }
    split.
    { rewrite nth_error_map, Hi. unfold entry_of. simpl.
      rewrite Hid. do 2 f_equal. lia. }
    split; [reflexivity|]. split; [apply strip_trimmed|].
    rewrite Forall_forall in Hf.
    destruct (Hf seg (nth_error_In _ _ Hi)) as [Hs He].
    split; now apply format_timestamp_time_code.
Qed.

Lemma post_process_ids_and_texts_witness :
  exists r,
    post_process_result_for_srt Sample.segments = Ok r
    /\ keys r = [1; 2]
    /\ forall i seg,
         nth_error Sample.segments i = Some seg ->
         exists e,
           nth_error r i = Some (Z.of_nat (S i), e)
           /\ text e = PyStr.strip (seg_text seg)
           /\ trimmed_of (text e) (seg_text seg)
           /\ format_timestamp (seg_start seg) = Ok (start_time e)
           /\ format_timestamp (seg_end seg) = Ok (end_time e).
Proof.
  apply (@post_process_ids_and_texts Sample.segments).
  - reflexivity.
  - repeat constructor; discriminate.
Defined.

(** ** Time codes and their round trip *)

Module TimestampFacts.
Import PyStr Timestamp.

Lemma two_digits (n : Z) : 0 <= n < 100 -> 10 * ((n / 10) mod 10) + n mod 10 = n.
Proof. intros H. Z.div_mod_to_equations; lia. Qed.

Lemma three_digits (u : Z) :
  0 <= u < 1000000 ->
  100 * ((u / 100000) mod 10) + 10 * ((u / 10000) mod 10) + (u / 1000) mod 10
  = u / 1000.
Proof.
  intros H.
  replace (u / 100000) with (u / 1000 / 100)
    by (rewrite Z.div_div by lia; reflexivity).
  replace (u / 10000) with (u / 1000 / 10)
    by (rewrite Z.div_div by lia; reflexivity).
  assert (0 <= u / 1000 < 1000) by (Z.div_mod_to_equations; lia).
  generalize dependent (u / 1000). intros m Hm.
  Z.div_mod_to_equations; lia.
Qed.

Lemma clock (dt : Z) :
  ((hour dt * 3600 + minute dt * 60 + second dt) * 1000 + microsecond dt / 1000)
  = (dt mod us_per_day) / 1000.
Proof.
  unfold hour, minute, second, microsecond, us_per_day.
  Z.div_mod_to_equations; lia.
Qed.

Lemma code_chr (z : Z) : 0 <= z < 256 -> code (chr z) = z.
Proof.
  intros H. unfold code, chr. rewrite nat_ascii_embedding by lia. lia.
Qed.

Lemma digit_val_digit (n : Z) : digit_val (digit n) = Some (n mod 10).
Proof.
  unfold digit_val, digit.
  pose proof (Z.mod_pos_bound n 10 ltac:(lia)) as H.
  rewrite code_chr by lia.
  replace ((48 <=? 48 + n mod 10) && (48 + n mod 10 <=? 57)) with true.
  - f_equal. lia.
  - symmetry. apply andb_true_intro. split; apply Z.leb_le; lia.
Qed.

Lemma clock_ranges (dt : Z) :
  0 <= hour dt < 24 /\ 0 <= minute dt < 60 /\ 0 <= second dt < 60
  /\ 0 <= microsecond dt < 1000000.
Proof.
  unfold hour, minute, second, microsecond, us_per_day.
  repeat split; Z.div_mod_to_equations; lia.
Qed.

Lemma slice_strftime (dt : Z) :
  slice_to_minus3 (strftime dt)
  = zfill2 (hour dt) (String ":" (zfill2 (minute dt) (String ":"
      (zfill2 (second dt) (String ","
        (String (digit (microsecond dt / 100000))
          (String (digit (microsecond dt / 10000))
            (String (digit (microsecond dt / 1000)) EmptyString)))))))).
Proof. reflexivity. Qed.

Lemma parse_strftime (dt : Z) :
  parse_timestamp (slice_to_minus3 (strftime dt))
  = Some ((dt mod us_per_day) / 1000).
Proof.
  destruct (clock_ranges dt) as (Hh & Hm & Hs & Hu).
  rewrite slice_strftime. unfold zfill2, parse_timestamp.
  rewrite !digit_val_digit.
  change (Ascii.eqb ":" ":" && Ascii.eqb ":" ":" && Ascii.eqb "," ",") with true.
  cbv iota.
  rewrite !two_digits by lia. f_equal.
  pose proof (@three_digits _ Hu) as H3.
  rewrite <- clock.
  generalize dependent (microsecond dt / 1000).
  generalize ((microsecond dt / 100000) mod 10) ((microsecond dt / 10000) mod 10).
  intros a b c Hc. generalize dependent (c mod 10). intros d Hd. lia.
Qed.

Lemma round_half_even_near (q : Q) :
  (inject_Z (round_half_even q) - (1 # 2) <= q
   /\ q <= inject_Z (round_half_even q) + (1 # 2))%Q.
Proof.
  unfold round_half_even.
  pose proof (Qfloor_le q) as Hlo.
  pose proof (Qlt_floor q) as Hhi.
  rewrite inject_Z_plus in Hhi. change (inject_Z 1) with 1%Q in Hhi.
  destruct (Qcompare_spec (q - inject_Z (Qfloor q)) (1 # 2)) as [He|Hl|Hg].
  - destruct (Z.even (Qfloor q)).
    + split; lra.
    + rewrite inject_Z_plus. change (inject_Z 1) with 1%Q. split; lra.
  - split; lra.
  - rewrite inject_Z_plus. change (inject_Z 1) with 1%Q. split; lra.
Qed.

Lemma timedelta_near (x : Q) :
  (inject_Z (timedelta x) - (1 # 2) <= x * inject_Z 1000000
   /\ x * inject_Z 1000000 <= inject_Z (timedelta x) + (1 # 2))%Q.
Proof.
  unfold timedelta.
  set (sec := trunc x).
  pose proof (round_half_even_near ((x - inject_Z sec) * inject_Z 1000000)) as H.
  rewrite inject_Z_plus, inject_Z_mult.
  set (r := inject_Z (round_half_even ((x - inject_Z sec) * inject_Z 1000000))) in *.
  change (inject_Z 1000000) with (1000000 # 1)%Q in *.
  split; lra.
Qed.

Lemma format_timestamp_in_range (x : Q) :
  0 <= timedelta x < 2958464 * us_per_day ->
  format_timestamp x = Some (slice_to_minus3 (strftime (timedelta x))).
Proof.
  intros H. unfold format_timestamp, timedelta_ok, datetime_ok.
  unfold us_per_day in *.
  replace (- 999999999 * (86400 * 1000000) <=? timedelta x) with true
    by (symmetry; apply Z.leb_le; lia).
  replace (timedelta x <? 1000000000 * (86400 * 1000000)) with true
    by (symmetry; apply Z.ltb_lt; lia).
  replace (- 693595 * (86400 * 1000000) <=? 0 + timedelta x) with true
    by (symmetry; apply Z.leb_le; lia).
  replace (0 + timedelta x <? 2958464 * (86400 * 1000000)) with true
    by (symmetry; apply Z.ltb_lt; lia).
  reflexivity.
Qed.

(** C5, as claimed, fails: there is a bound on the hours. 86400 seconds
    are formatted as "00:00:00,000", which reads back as 0 milliseconds,
    a whole day away from the input. *)
Lemma format_timestamp_day_wraps :
  (0 <= inject_Z 86400)%Q
  /\ format_timestamp (inject_Z 86400) = Some "00:00:00,000"
  /\ parse_timestamp "00:00:00,000" = Some 0
  /\ ~ (exists t ms,
          format_timestamp (inject_Z 86400) = Some t
          /\ parse_timestamp t = Some ms
          /\ (inject_Z ms - 1 < inject_Z 86400 * inject_Z 1000
              /\ inject_Z 86400 * inject_Z 1000 < inject_Z ms + 1)%Q).
Proof.
  split; [discriminate|]. split; [reflexivity|]. split; [reflexivity|].
  intros (t & ms & Hf & Hp & _ & H).
  vm_compute in Hf. inversion Hf; subst t.
  vm_compute in Hp. inversion Hp; subst ms.
  vm_compute in H. discriminate.
Qed.

(** C5, amended. For every seconds value from 0 up to, and not including,
    86399.9999995 (the values that round to less than 24 hours of
    microseconds) [format_timestamp] returns a text of twelve characters
    of the shape HH:MM:SS,mmm, zero-padded, and reading it back gives a
    number of milliseconds less than one millisecond away from the
    input. The hours field is the hour of the day: [parse_strftime] shows
    that a longer duration is formatted modulo 24 hours. *)
Theorem format_timestamp_round_trip (x : Q) :
  (0 <= x)%Q -> (x < 863999999995 # 10000000)%Q ->
  exists t ms,
    format_timestamp x = Some t
    /\ String.length t = 12%nat
    /\ parse_timestamp t = Some ms
    /\ 0 <= ms < 86400000
    /\ (inject_Z ms - 1 < x * inject_Z 1000 /\ x * inject_Z 1000 < inject_Z ms + 1)%Q.
Proof.
  intros H0 Hx.
  destruct (timedelta_near x) as [Hlo Hhi].
  change (inject_Z 1000000) with (1000000 # 1)%Q in *.
  assert (Hus : 0 <= timedelta x < 86400000000).
  { split.
    - assert (Hq : (inject_Z (-1) < inject_Z (timedelta x))%Q).
      { change (inject_Z (-1)) with (-1 # 1)%Q. lra. }
      rewrite <- Zlt_Qlt in Hq. lia.
    - assert (Hq : (inject_Z (timedelta x) < inject_Z 86400000000)%Q).
      { change (inject_Z 86400000000) with (86400000000 # 1)%Q. lra. }
      rewrite <- Zlt_Qlt in Hq. exact Hq. }
  exists (slice_to_minus3 (strftime (timedelta x))), (timedelta x / 1000).
  split; [apply format_timestamp_in_range; unfold us_per_day; lia|].
  split; [reflexivity|].
  split.
  { rewrite parse_strftime. unfold us_per_day.
    rewrite Z.mod_small by lia. reflexivity. }
  split; [Z.div_mod_to_equations; lia|].
  assert (Hd : 1000 * (timedelta x / 1000) <= timedelta x
               <= 1000 * (timedelta x / 1000) + 999)
    by (Z.div_mod_to_equations; lia).
  destruct Hd as [Hd1 Hd2].
  rewrite Zle_Qle in Hd1, Hd2.
  rewrite inject_Z_plus, inject_Z_mult in Hd2.
  rewrite inject_Z_mult in Hd1.
  change (inject_Z 1000) with (1000 # 1)%Q in *.
  change (inject_Z 999) with (999 # 1)%Q in *.
  split; lra.
Qed.

Lemma format_timestamp_round_trip_witness :
  exists t ms,
    format_timestamp (3723456 # 1000) = Some t
    /\ String.length t = 12%nat
    /\ parse_timestamp t = Some ms
    /\ 0 <= ms < 86400000
    /\ (inject_Z ms - 1 < (3723456 # 1000) * inject_Z 1000
        /\ (3723456 # 1000) * inject_Z 1000 < inject_Z ms + 1)%Q.
Proof.
  apply (@format_timestamp_round_trip (3723456 # 1000)%Q).
  - discriminate.
  - reflexivity.
Defined.

End TimestampFacts.

(** ** The Pipeline Orchestrator *)

Section Avoid.
Variable P : Event -> bool.

Lemma avoids_ret A (a : A) : avoids P (ret a).
Proof. intros p. constructor. Qed.

Lemma avoids_raise A c msg : avoids P (@raise A c msg).
Proof. intros p. constructor. Qed.

Lemma avoids_lift A (r : Result A) : avoids P (lift r).
Proof. intros p. constructor. Qed.

Lemma avoids_emit e : P e = false -> avoids P (emit e).
Proof. intros H p. repeat constructor. exact H. Qed.

Lemma avoids_bind A B (m : M A) (k : A -> M B) :
  avoids P m -> (forall a, avoids P (k a)) -> avoids P (bind m k).
Proof.
  intros Hm Hk p. unfold bind. specialize (Hm p).
  destruct (result (m p)) as [a|e]; simpl; [|exact Hm].
  apply Forall_app. split; [exact Hm | apply Hk].
Qed.

Lemma avoids_try A (m : M A) (h : Exn -> M A) :
  avoids P m -> (forall e, avoids P (h e)) -> avoids P (try_except m h).
Proof.
  intros Hm Hh p. unfold try_except. specialize (Hm p).
  destruct (result (m p)) as [a|e]; simpl; [exact Hm|].
  apply Forall_app. split; [exact Hm | apply Hh].
Qed.
End Avoid.

Ltac avoid :=
  repeat first
    [ apply avoids_ret | apply avoids_raise | apply avoids_lift
    | apply avoids_emit; reflexivity
    | apply avoids_bind; [|intros ?]
    | apply avoids_try; [|intros ?]
    | progress unfold print
    | match goal with
      | |- avoids _ (if ?b then _ else _) => destruct b
      | |- avoids _ (match ?x with _ => _ end) => destruct x
      | |- avoids _ (let '(_, _) := ?x in _) => destruct x
      end ].

Section InitModel.
Variable E : Env.
Variable P : Event -> bool.
Hypothesis P_print : forall l, P (Print l) = false.
Hypothesis P_read : P ReadModelPref = false.
Hypothesis P_write : forall c, P (WriteModelPref c) = false.
Hypothesis P_load : forall n d, P (LoadModel n d) = false.

Lemma avoids_print l : avoids P (print l).
Proof. apply avoids_emit. apply P_print. Qed.

Lemma avoids_load_model n d : avoids P (load_model E n d).
Proof.
  unfold load_model. apply avoids_bind; [apply avoids_emit, P_load|].
  intros _. apply avoids_lift.
Qed.

Lemma avoids_pref ms : avoids P (load_model_pref ms).
Proof.
  intros p. unfold load_model_pref.
  destruct ms; simpl; [constructor|].
  destruct p; simpl; repeat constructor. exact P_read.
Qed.

Lemma avoids_save n : avoids P (save_model_pref n).
Proof. intros p. simpl. repeat constructor. apply P_write. Qed.

Lemma avoids_try_model_sizes d sizes : avoids P (try_model_sizes E d sizes).
Proof.
  induction sizes as [|n rest IH]; simpl.
  - apply avoids_ret.
  - apply avoids_try.
    + apply avoids_bind; [apply avoids_load_model|]. intros m.
      apply avoids_bind; [apply avoids_print|]. intros _.
      apply avoids_bind; [apply avoids_save|]. intros _. apply avoids_ret.
    + intros e. destruct (exn_class e); try exact IH;
        (apply avoids_bind; [apply avoids_print|]; intros _;
         apply avoids_bind; [apply avoids_print|]; intros _; exact IH).
Qed.

Lemma avoids_init_model ms : avoids P (init_model E ms).
Proof.
  unfold init_model.
  apply avoids_bind; [apply avoids_pref|]. intros [n|].
  - apply avoids_bind; [apply avoids_pref|]. intros p1.
    apply avoids_bind; [apply avoids_print|]. intros _.
    apply avoids_bind; [apply avoids_pref|]. intros [n2|].
    + apply avoids_bind; [apply avoids_load_model|]. intros m. apply avoids_ret.
    + apply avoids_raise.
  - apply avoids_try_model_sizes.
Qed.
End InitModel.

Section Quiet.
Variable E : Env.







End Quiet.

Section View.
Variable X : Type.
Variable f : Event -> list X.
Variable P : Event -> bool.
Hypothesis f_P : forall e, P e = false -> f e = [].

Lemma flat_map_avoided (t : list Event) :
  Forall (fun e => P e = false) t -> flat_map f t = [].
Proof.
  induction 1 as [|e t He _ IH]; [reflexivity|].
  simpl. now rewrite IH, (f_P He).
Qed.

(** The view of [x <- m ;; k x] when [m] shows nothing. *)
Lemma view_bind_avoid A B (m : M A) (k : A -> M B) (p : option string) :
  avoids P m ->
  view f (bind m k p)
  = match result (m p) with
    | Ok a => view f (k a (model_pref_file (m p)))
    | Raise e => ([], Raise e)
    end.
Proof.
  intros H. specialize (H p). apply flat_map_avoided in H.
  unfold view, bind. destruct (result (m p)); simpl.
  - now rewrite flat_map_app, H.
  - now rewrite H.
Qed.

Lemma view_bind A B (m : M A) (k : A -> M B) (p : option string) :
  view f (bind m k p)
  = match snd (view f (m p)) with
    | Ok a =>
        ((fst (view f (m p))
          ++ fst (view f (k a (model_pref_file (m p)))))%list,
         snd (view f (k a (model_pref_file (m p)))))
    | Raise e => (fst (view f (m p)), Raise e)
    end.
Proof.
  unfold view, bind. simpl. destruct (result (m p)); simpl; [|reflexivity].
  now rewrite flat_map_app.
Qed.
End View.


Lemma touched_input_none (e : Event) :
  touches_input e = false -> touched_input e = [].
Proof. unfold touched_input. now intros ->. Qed.











Section Counting.
Variable E : Env.
Variable vid_file_map : dict string string.
Variable video_language : string.
Variable translation_languages : list string.
Variable translation_service : string.
Variable translation_service_api_key : option string.
Variable mode : option string.


End Counting.






Section NoModel.
Variable E : Env.
Variable vid_file_map : dict string string.
Variable video_language : string.
Variable translation_languages : list string.
Variable translation_service : string.
Variable translation_service_api_key : option string.
Variable mode : option string.

Lemma untouched_progress u st :
  avoids touches_input (print_and_update_progress mode u st).
Proof. unfold print_and_update_progress. avoid. Qed.

Lemma untouched_vid_file a : avoids touches_input (vid_file vid_file_map a).
Proof. unfold vid_file. avoid. Qed.

Lemma untouched_print l : avoids touches_input (print l).
Proof. avoid. Qed.

Lemma untouched_init_model ms : avoids touches_input (init_model E ms).
Proof. apply avoids_init_model; reflexivity. Qed.

(** Without a model, [transcribe_audio] never returns; the most it does
    is to load the audio. *)
Lemma transcribe_audio_no_model (B : Type) (a : string)
    (k : SubtitleResult -> M B) (p : option string) :
  let v := view touched_input
             (bind (transcribe_audio E None a video_language) k p) in
  (exists e, snd v = Raise e)
  /\ (fst v = [] \/ fst v = [LoadAudio a])
  /\ (dict_mem String.eqb (TRANSCRIPTION_SUPPORTED_LANGS E)
        (PyStr.lower video_language) = true ->
      fst v = [LoadAudio a]
      /\ forall audio, whisper_load_audio E a = Ok audio ->
                       snd v = Raise no_model_error).
Proof.
  cbv zeta. rewrite view_bind. unfold transcribe_audio.
  destruct (dict_mem String.eqb (TRANSCRIPTION_SUPPORTED_LANGS E)
              (PyStr.lower video_language)); simpl negb; cbv iota.
  - unfold view, bind, emit, lift, raise. simpl.
    destruct (whisper_load_audio E a) as [audio|e]; simpl.
    + split; [eexists; reflexivity|]. split; [auto|].
      intros _. split; [reflexivity|]. intros au H. reflexivity.
    + split; [eexists; reflexivity|]. split; [auto|].
      intros _. split; [reflexivity|]. discriminate.
  - unfold view, raise. simpl.
    split; [eexists; reflexivity|]. split; [auto|]. discriminate.
Qed.
End NoModel.

Lemma progress_result (mode : option string) (u : bool) (st : Steps)
    (p : option string) :
  result (print_and_update_progress mode u st p)
  = Ok (advance (is_gui mode) u st)
  /\ model_pref_file (print_and_update_progress mode u st p) = p.
Proof.
  unfold print_and_update_progress, advance, bind, emit.
  destruct (is_gui mode), u; simpl; auto.
Qed.

Ltac untouched_step lem :=
  rewrite (@view_bind_avoid _ _ _ touched_input_none) by apply lem.

Lemma view_bind_ret_tt X (f : Event -> list X) A (m : M A)
    (p : option string) :
  view f (bind m (fun _ => ret tt) p)
  = (fst (view f (m p)),
     match snd (view f (m p)) with Ok _ => Ok tt | Raise e => Raise e end).
Proof.
  unfold view, bind, ret. simpl. destruct (result (m p)); simpl.
  - now rewrite app_nil_r.
  - reflexivity.
Qed.

Lemma no_model_steps
    (E : Env) (vid_file_map : dict string string) (audio_files : list string)
    (video_language : string) (translation_languages : list string)
    (translation_service : string)
    (translation_service_api_key model_size mode p : option string) :
  result (init_model E model_size p) = Ok None ->
  let v := view touched_input
             (subtitle_steps E vid_file_map audio_files video_language
                translation_languages translation_service
                translation_service_api_key model_size mode p) in
  (audio_files = [] -> (exists st, snd v = Ok st) /\ fst v = [])
  /\ (forall audio_file rest,
         audio_files = audio_file :: rest ->
         (exists e, snd v = Raise e)
         /\ (fst v = [] \/ fst v = [LoadAudio audio_file])
         /\ (forall w,
                dict_get String.eqb vid_file_map audio_file = Some w ->
                dict_mem String.eqb (TRANSCRIPTION_SUPPORTED_LANGS E)
                  (PyStr.lower video_language) = true ->
                fst v = [LoadAudio audio_file]
                /\ forall audio,
                     whisper_load_audio E audio_file = Ok audio ->
                     snd v = Raise no_model_error)).
Proof.
  intros Hnone. cbv zeta. unfold subtitle_steps.
  untouched_step untouched_progress.
  destruct (progress_result mode false (mkSteps 1 2) p) as [-> ->].
  untouched_step untouched_init_model. rewrite Hnone.
  set (p1 := model_pref_file (init_model E model_size p)).
  untouched_step untouched_progress.
  match goal with
  | |- context [result (print_and_update_progress ?m ?u ?s ?q)] =>
      destruct (progress_result m u s q) as [-> ->]
  end.
  untouched_step untouched_print. cbn [result print emit model_pref_file].
  untouched_step untouched_progress.
  match goal with
  | |- context [result (print_and_update_progress ?m ?u ?s ?q)] =>
      destruct (progress_result m u s q) as [-> ->]
  end.
  match goal with
  | |- context [inputs _ _ _ _ _ _ _ _ _ ?s _] => generalize s; intros st
  end.
  split.
  - intros ->. cbn. eauto.
  - intros a rest ->. cbn [inputs].
    untouched_step untouched_vid_file. unfold vid_file.
    destruct (dict_get String.eqb vid_file_map a) as [w|] eqn:Hw.
    + cbn [result ret model_pref_file].
      untouched_step untouched_print. cbn [result print emit model_pref_file].
      match goal with
      | |- context [view touched_input (bind (transcribe_audio _ _ _ _) ?k ?q)] =>
          pose proof (transcribe_audio_no_model E video_language a k q) as H;
          cbv zeta in H;
          destruct (view touched_input
                      (bind (transcribe_audio E None a video_language) k q))
            as [seen res]
      end.
      destruct H as ([e He] & Hor & Hsup).
      cbn [fst snd] in *. subst res.
      split; [eexists; reflexivity|]. split; [exact Hor|].
      intros w' _ Hl. destruct (Hsup Hl) as [Hseen Hres].
      split; [exact Hseen|]. intros audio Hau. exact (Hres audio Hau).
    + cbn [result raise fst snd].
      split; [eexists; reflexivity|]. split; [auto|].
      intros w' Hw'. discriminate.
Qed.

(** C2, as claimed, fails: in the sample environment where no size fits,
    [init_model] returns [None], and the run reads the first input before
    it stops; with no input at all it ends normally. *)
Lemma no_model_reads_first_input :
  let E := Sample.env (fun _ => false) Sample.full in
  let o := subtitle E Sample.vid_file_map ["tmp/a.wav"] "english" ["french"]
             "google" None None (Some "gui") None in
  result (init_model E None None) = Ok None
  /\ In (LoadAudio "tmp/a.wav") (trace o)
  /\ loaded_audio (trace o) = ["tmp/a.wav"]
  /\ result o = Raise no_model_error
  /\ result (subtitle E Sample.vid_file_map [] "english" ["french"]
               "google" None None (Some "gui") None) = Ok tt.
Proof.
  cbv zeta. split; [reflexivity|]. split.
  - vm_compute. auto 20.
  - repeat split; reflexivity.
Qed.

(** C2, amended. When [init_model] returns [None], [subtitle] goes on
    without a check. With no audio input the run ends normally. With at
    least one, the run always ends in an error at the first input, and of
    all the inputs, engine calls, provider calls and files, the only thing
    it may have touched is the audio of that first input, which it loads
    whenever the input has a video and the language is supported; if the
    audio loads, the error is the [AttributeError] of calling
    [transcribe] on [None]. *)
Theorem no_model_run
    (E : Env) (vid_file_map : dict string string) (audio_files : list string)
    (video_language : string) (translation_languages : list string)
    (translation_service : string)
    (translation_service_api_key model_size mode p : option string) :
  result (init_model E model_size p) = Ok None ->
  let o := subtitle E vid_file_map audio_files video_language
             translation_languages translation_service
             translation_service_api_key model_size mode p in
  (audio_files = [] -> result o = Ok tt /\ touched (trace o) = [])
  /\ (forall audio_file rest,
         audio_files = audio_file :: rest ->
         (exists e, result o = Raise e)
         /\ (touched (trace o) = []
             \/ touched (trace o) = [LoadAudio audio_file])
         /\ (forall w,
                dict_get String.eqb vid_file_map audio_file = Some w ->
                dict_mem String.eqb (TRANSCRIPTION_SUPPORTED_LANGS E)
                  (PyStr.lower video_language) = true ->
                touched (trace o) = [LoadAudio audio_file]
                /\ forall audio,
                     whisper_load_audio E audio_file = Ok audio ->
                     result o = Raise no_model_error)).
Proof.
  intros Hnone o.
  change (touched (trace o)) with (fst (view touched_input o)).
  change (result o) with (snd (view touched_input o)).
  unfold o, subtitle. clear o. rewrite view_bind_ret_tt. cbn [fst snd].
  pose proof (no_model_steps E vid_file_map audio_files video_language
                translation_languages translation_service
                translation_service_api_key model_size mode p Hnone) as H.
  cbv zeta in H. destruct H as [Hnil Hcons].
  destruct (view touched_input
              (subtitle_steps E vid_file_map audio_files video_language
                 translation_languages translation_service
                 translation_service_api_key model_size mode p))
    as [seen res].
  cbn [fst snd] in *. split.
  - intros Hf. destruct (Hnil Hf) as [[st ->] ->]. auto.
  - intros a rest Hf. destruct (Hcons a rest Hf) as ([e ->] & Hor & Hsup).
    split; [eexists; reflexivity|]. split; [exact Hor|].
    intros w Hw Hl. destruct (Hsup w Hw Hl) as [Hs Hr].
    split; [exact Hs|]. intros audio Hau.
    specialize (Hr audio Hau). inversion Hr. reflexivity.
Qed.

Lemma no_model_run_witness :
  let E := Sample.env (fun _ => false) Sample.full in
  let o := subtitle E Sample.vid_file_map ["tmp/a.wav"; "tmp/b.wav"]
             "English" ["french"] "google" None None None None in
  (exists e, result o = Raise e)
  /\ (touched (trace o) = [] \/ touched (trace o) = [LoadAudio "tmp/a.wav"])
  /\ (forall w,
        dict_get String.eqb Sample.vid_file_map "tmp/a.wav" = Some w ->
        dict_mem String.eqb (TRANSCRIPTION_SUPPORTED_LANGS E)
          (PyStr.lower "English") = true ->
        touched (trace o) = [LoadAudio "tmp/a.wav"]
        /\ forall audio,
             whisper_load_audio E "tmp/a.wav" = Ok audio ->
             result o = Raise no_model_error).
Proof.
  refine (proj2 (@no_model_run (Sample.env (fun _ => false) Sample.full)
            Sample.vid_file_map ["tmp/a.wav"; "tmp/b.wav"] "English"
            ["french"] "google" None None None None _)
          "tmp/a.wav" ["tmp/b.wav"] eq_refl).
  reflexivity.
Defined.

(** * Further properties of the code *)

(** ** Splitting and joining *)

Lemma string_app_assoc (a b c : string) : (a ++ b) ++ c = a ++ b ++ c.
Proof. induction a as [|x a IH]; simpl; [reflexivity | now rewrite IH]. Qed.

Lemma split_not_nil (sep : ascii) (s : string) : PyStr.split sep s <> [].
Proof.
  destruct s as [|c r]; simpl; [discriminate|].
  destruct (Ascii.eqb c sep); [discriminate|].
  destruct (PyStr.split sep r); discriminate.
Qed.

Lemma split_app (sep : ascii) (a b : string) :
  PyStr.split sep (a ++ String sep b)
  = (PyStr.split sep a ++ PyStr.split sep b)%list.
Proof.
  induction a as [|c a IH]; simpl.
  - now rewrite Ascii.eqb_refl.
  - destruct (Ascii.eqb c sep); [now rewrite IH|].
    rewrite IH. destruct (PyStr.split sep a) as [|w ws] eqn:Hs.
    + now apply split_not_nil in Hs.
    + reflexivity.
Qed.

Lemma split_whole (sep : ascii) (s : string) :
  contains sep s = false -> PyStr.split sep s = [s].
Proof.
  induction s as [|c r IH]; simpl; [reflexivity|].
  intros H. apply orb_false_elim in H. destruct H as [Hc Hr].
  rewrite Hc, (IH Hr). reflexivity.
Qed.

Lemma join_cons_char (sep : string) (c : ascii) (w : string)
    (ws : list string) :
  PyStr.join sep (String c w :: ws) = String c (PyStr.join sep (w :: ws)).
Proof. destruct ws; reflexivity. Qed.

Lemma join_split (sep : ascii) (s : string) :
  PyStr.join (String sep EmptyString) (PyStr.split sep s) = s.
Proof.
  induction s as [|c r IH]; simpl; [reflexivity|].
  destruct (Ascii.eqb_spec c sep) as [->|_].
  - destruct (PyStr.split sep r) as [|w ws] eqn:Hs.
    + now apply split_not_nil in Hs.
    + simpl in *. now rewrite IH.
  - destruct (PyStr.split sep r) as [|w ws] eqn:Hs.
    + now apply split_not_nil in Hs.
    + rewrite join_cons_char. now rewrite IH.
Qed.

Lemma base_name_drops_last_extension (name ext : string) :
  contains "." ext = false ->
  base_name (name ++ "." ++ ext) = name.
Proof.
  intros H. unfold base_name. simpl append.
  rewrite split_app, (@split_whole _ _ H), removelast_last.
  apply join_split.
Qed.

Lemma base_name_without_dot (s : string) :
  contains "." s = false -> base_name s = EmptyString.
Proof.
  intros H. unfold base_name. now rewrite (@split_whole _ _ H).
Qed.

(** ** The Subtitle Writer on a language it knows *)

Lemma save_result_as_srt_known
    (E : Env) (r : SubtitleResult) (target_language video_file_name c : string)
    (default_srt_file : bool) (p : option string) :
  get_lang_iso_code E (PyStr.lower target_language) = Some c ->
  let name := base_name video_file_name
              ++ (if default_srt_file then ".default." else ".")
              ++ c ++ ".srt" in
  save_result_as_srt E r target_language video_file_name default_srt_file p
  = mkOutcome (Ok name) p [WriteFile name (srt_body E r)].
Proof.
  intros Hc. cbv zeta.
  unfold save_result_as_srt, srt_file_name, bind, lift, emit, ret, str_add.
  rewrite Hc. destruct default_srt_file; simpl;
    now rewrite !string_app_assoc.
Qed.

(** X16. For a video named name.ext, with no dot in ext, and a language with
    ISO code c, [save_result_as_srt] writes one file, name.default.c.srt
    for the default track and name.c.srt otherwise, and returns that
    name. *)
Theorem save_replaces_extension
    (E : Env) (r : SubtitleResult) (target_language name ext c : string)
    (default_srt_file : bool) (p : option string) :
  contains "." ext = false ->
  get_lang_iso_code E (PyStr.lower target_language) = Some c ->
  let srt := name ++ (if default_srt_file then ".default." else ".")
             ++ c ++ ".srt" in
  save_result_as_srt E r target_language (name ++ "." ++ ext)
    default_srt_file p
  = mkOutcome (Ok srt) p [WriteFile srt (srt_body E r)].
Proof.
  intros Hext Hc. cbv zeta.
  rewrite (@save_result_as_srt_known E r target_language
             (name ++ "." ++ ext) c default_srt_file p Hc).
  now rewrite (@base_name_drops_last_extension name ext Hext).
Qed.

(** X17. A video file name without a dot loses its whole name: the subtitle
    file is .default.c.srt, or .c.srt for a translated track. *)
Theorem save_without_extension_loses_name
    (E : Env) (r : SubtitleResult) (target_language video_file_name c : string)
    (default_srt_file : bool) (p : option string) :
  contains "." video_file_name = false ->
  get_lang_iso_code E (PyStr.lower target_language) = Some c ->
  let srt := (if default_srt_file then ".default." else ".") ++ c ++ ".srt" in
  save_result_as_srt E r target_language video_file_name default_srt_file p
  = mkOutcome (Ok srt) p [WriteFile srt (srt_body E r)].
Proof.
  intros Hdot Hc. cbv zeta.
  rewrite (@save_result_as_srt_known E r target_language video_file_name
             c default_srt_file p Hc).
  now rewrite (@base_name_without_dot video_file_name Hdot).
Qed.

(** X18. The ISO code is looked up in the transcription vocabulary first, for
    a translated track as well: a target language that this vocabulary
    knows is named by its code there, whatever the translation
    vocabulary says. *)
Theorem translated_track_named_by_transcription_code
    (E : Env) (r : SubtitleResult) (target_language video_file_name c : string)
    (p : option string) :
  dict_get String.eqb (TRANSCRIPTION_SUPPORTED_LANGS E)
    (PyStr.lower target_language) = Some c ->
  let srt := base_name video_file_name ++ "." ++ c ++ ".srt" in
  save_result_as_srt E r target_language video_file_name false p
  = mkOutcome (Ok srt) p [WriteFile srt (srt_body E r)].
Proof.
  intros Hc.
  apply (@save_result_as_srt_known E r target_language video_file_name c
           false p).
  unfold get_lang_iso_code, dict_mem. now rewrite Hc.
Qed.

(** ** The lines of a subtitle file *)

Lemma contains_app (c : ascii) (a b : string) :
  contains c (a ++ b) = contains c a || contains c b.
Proof.
  induction a as [|x a IH]; simpl; [reflexivity|].
  now rewrite IH, orb_assoc.
Qed.

Lemma uint_no_newline (d : Decimal.uint) :
  contains (ascii_of_nat 10) (NilEmpty.string_of_uint d) = false.
Proof. induction d; simpl; auto. Qed.

Lemma str_int_no_newline (z : Z) :
  contains (ascii_of_nat 10) (PyStr.str_int z) = false.
Proof.
  unfold PyStr.str_int, NilZero.string_of_int, NilZero.string_of_uint.
  destruct (Z.to_int z) as [d|d]; destruct d; simpl;
    auto using uint_no_newline.
Qed.

Lemma concat_empty_cons (x : string) (xs : list string) :
  String.concat EmptyString (x :: xs) = x ++ String.concat EmptyString xs.
Proof.
  destruct xs as [|y ys]; simpl; [|reflexivity].
  induction x as [|c x IH]; simpl; [reflexivity | now rewrite <- IH].
Qed.

Lemma srt_block_lines (enc : string -> string) (id : Z) (e : SubtitleEntry)
    (rest : string) :
  one_line (start_time e) -> one_line (end_time e) ->
  one_line (enc (text e)) ->
  PyStr.split (ascii_of_nat 10) (srt_block enc (id, e) ++ rest)
  = PyStr.str_int id
    :: (start_time e ++ " --> " ++ end_time e)
    :: enc (text e)
    :: EmptyString
    :: PyStr.split (ascii_of_nat 10) rest.
Proof.
  unfold one_line. set (lf := ascii_of_nat 10). intros Hs He Ht.
  assert (Hrange : contains lf (start_time e ++ " --> " ++ end_time e)
                   = false).
  { rewrite !contains_app, Hs, He. reflexivity. }
  assert (Heq : srt_block enc (id, e) ++ rest
                = PyStr.str_int id
                  ++ String lf ((start_time e ++ " --> " ++ end_time e)
                  ++ String lf (enc (text e)
                  ++ String lf (EmptyString ++ String lf rest)))).
  { unfold srt_block, nl. fold lf.
    repeat (rewrite string_app_assoc || cbn [append]). reflexivity. }
  rewrite Heq.
  rewrite split_app, (@split_whole lf _ (str_int_no_newline id)).
  rewrite split_app, (@split_whole lf _ Hrange).
  rewrite split_app, (@split_whole lf _ Ht).
  rewrite split_app. reflexivity.
Qed.

(** X19. When the time codes and the written texts hold no newline, the body
    of the subtitle file is, line by line, four lines for every entry in
    order: the id, start --> end, the text, and an empty line. *)
Theorem srt_body_lines (E : Env) (r : SubtitleResult) :
  Forall (fun item => one_line (start_time (snd item))
                      /\ one_line (end_time (snd item))
                      /\ one_line (written_text E (text (snd item)))) r ->
  PyStr.split (ascii_of_nat 10) (srt_body E r)
  = (flat_map (entry_lines E) r ++ [EmptyString])%list.
Proof.
  change (srt_body E r)
    with (String.concat EmptyString (map (srt_block (written_text E)) r)).
  induction 1 as [|[id e] r (Hs & He & Ht) _ IH]; [reflexivity|].
  simpl map. rewrite concat_empty_cons.
  cbn [fst snd] in *.
  rewrite (srt_block_lines _ id e _ Hs He Ht), IH. reflexivity.
Qed.

(** ** Insertion and lookup in a dictionary *)

Section DictLaws.
Variables K V : Type.
Variable eqb : K -> K -> bool.
Hypothesis eqb_spec : forall a b, eqb a b = true <-> a = b.

Lemma dict_get_set_same (d : dict K V) (k : K) (v : V) :
  dict_get eqb (dict_set eqb d k v) k = Some v.
Proof.
  induction d as [|[k' v'] r IH]; simpl.
  - now rewrite (proj2 (eqb_spec k k) eq_refl).
  - destruct (eqb k k') eqn:Hk; simpl; now rewrite Hk.
Qed.

Lemma dict_get_set_other (d : dict K V) (k k' : K) (v : V) :
  k' <> k ->
  dict_get eqb (dict_set eqb d k v) k' = dict_get eqb d k'.
Proof.
  intros Hne. induction d as [|[k0 v0] r IH]; simpl.
  - destruct (eqb k' k) eqn:Hk; [|reflexivity].
    apply eqb_spec in Hk. contradiction.
  - destruct (eqb k k0) eqn:Hk; simpl.
    + apply eqb_spec in Hk. subst k0.
      destruct (eqb k' k) eqn:Hk'; [|reflexivity].
      apply eqb_spec in Hk'. contradiction.
    + now rewrite IH.
Qed.

Lemma keys_dict_set_in (d : dict K V) (k : K) (v : V) :
  In k (keys d) -> keys (dict_set eqb d k v) = keys d.
Proof.
  induction d as [|[k' v'] r IH]; simpl; [tauto|].
  destruct (eqb k k') eqn:Hk; [reflexivity|].
  intros [Heq|Hin].
  - subst k'. rewrite (proj2 (eqb_spec k k) eq_refl) in Hk. discriminate.
  - simpl. f_equal. now apply IH.
Qed.

Lemma keys_dict_set_fresh (d : dict K V) (k : K) (v : V) :
  ~ In k (keys d) -> keys (dict_set eqb d k v) = (keys d ++ [k])%list.
Proof.
  induction d as [|[k' v'] r IH]; simpl; [reflexivity|].
  intros Hn. destruct (eqb k k') eqn:Hk.
  - apply eqb_spec in Hk. subst. tauto.
  - simpl. f_equal. apply IH. tauto.
Qed.

Lemma In_dec_keys (d : dict K V) (k : K) : In k (keys d) \/ ~ In k (keys d).
Proof.
  induction d as [|[k' v'] r [IH|IH]]; simpl; [tauto|tauto|].
  destruct (eqb k' k) eqn:Hk.
  - apply eqb_spec in Hk. auto.
  - right. intros [Heq|Hin]; [|tauto].
    subst. rewrite (proj2 (eqb_spec k k) eq_refl) in Hk. discriminate.
Qed.

Lemma NoDup_dict_set (d : dict K V) (k : K) (v : V) :
  NoDup (keys d) -> NoDup (keys (dict_set eqb d k v)).
Proof.
  intros Hnd. destruct (In_dec_keys d k) as [Hin|Hout].
  - now rewrite keys_dict_set_in.
  - rewrite keys_dict_set_fresh by exact Hout.
    apply NoDup_app; [exact Hnd | repeat constructor; simpl; tauto|].
    intros x Hx [<-|[]]. contradiction.
Qed.

Lemma dict_get_key (d : dict K V) (k : K) (v : V) :
  dict_get eqb d k = Some v -> In k (keys d).
Proof.
  induction d as [|[k' v'] r IH]; simpl; [discriminate|].
  destruct (eqb k k') eqn:Hk; [|auto].
  apply eqb_spec in Hk. auto.
Qed.

Lemma key_dict_get (d : dict K V) (k : K) :
  In k (keys d) -> exists v, dict_get eqb d k = Some v.
Proof.
  induction d as [|[k' v'] r IH]; simpl; [tauto|].
  destruct (eqb k k') eqn:Hk; [eauto|].
  intros [Heq|Hin]; [|auto].
  subst. rewrite (proj2 (eqb_spec k k) eq_refl) in Hk. discriminate.
Qed.
End DictLaws.

(** ** More on the Segment Normalizer *)

Lemma post_process_segments_keys (segments : list Segment) :
  forall (acc r : SubtitleResult),
    NoDup (keys acc) ->
    post_process_segments segments acc = Ok r ->
    NoDup (keys r).
Proof.
  induction segments as [|seg rest IH]; intros acc r Hnd Hr; simpl in Hr.
  - now inversion Hr; subst.
  - destruct (format_timestamp (seg_start seg)); [|discriminate].
    destruct (format_timestamp (seg_end seg)); [|discriminate].
    eapply IH; [|exact Hr].
    apply NoDup_dict_set; [apply Z.eqb_eq | exact Hnd].
Qed.

(** X4. Whatever ids the segments carry, the ids of the mapping that
    [post_process_result_for_srt] returns are pairwise distinct. *)
Theorem post_process_keys_unique (segments : list Segment)
    (r : SubtitleResult) :
  post_process_result_for_srt segments = Ok r -> NoDup (keys r).
Proof.
  apply post_process_segments_keys. constructor.
Qed.

Lemma find_app_r (A : Type) (f : A -> bool) (l1 l2 : list A) :
  find f (l1 ++ l2)
  = match find f l1 with Some x => Some x | None => find f l2 end.
Proof.
  induction l1 as [|a l1 IH]; simpl; [reflexivity|].
  now destruct (f a).
Qed.

Lemma post_process_segments_lookup (segments : list Segment) :
  forall (acc r : SubtitleResult) (k : Z),
    post_process_segments segments acc = Ok r ->
    dict_get Z.eqb r k
    = match last_with_id segments k with
      | Some seg => Some (snd (entry_of seg))
      | None => dict_get Z.eqb acc k
      end.
Proof.
  induction segments as [|seg rest IH]; intros acc r k Hr; simpl in Hr.
  - now inversion Hr; subst.
  - unfold format_timestamp in Hr. unfold last_with_id in *. simpl rev.
    rewrite find_app_r.
    destruct (Timestamp.format_timestamp (seg_start seg)) as [st|] eqn:Hs;
      [|discriminate].
    destruct (Timestamp.format_timestamp (seg_end seg)) as [en|] eqn:He;
      [|discriminate].
    rewrite (IH _ _ k Hr).
    destruct (find (fun s => seg_id s + 1 =? k) (rev rest)); [reflexivity|].
    simpl find. destruct (Z.eqb_spec (seg_id seg + 1) k) as [<-|Hne].
    + rewrite dict_get_set_same by apply Z.eqb_eq.
      unfold entry_of, time_code. now rewrite Hs, He.
    + rewrite dict_get_set_other by (apply Z.eqb_eq || congruence).
      reflexivity.
Qed.

(** X5. When several segments carry the same id, the entry at that id comes
    from the last of them: looking up id k gives the entry of the last
    segment whose id is k - 1, and nothing if there is none. *)
Theorem post_process_last_segment_wins (segments : list Segment)
    (r : SubtitleResult) (k : Z) :
  post_process_result_for_srt segments = Ok r ->
  dict_get Z.eqb r k
  = option_map (fun seg => snd (entry_of seg)) (last_with_id segments k).
Proof.
  intros Hr.
  rewrite (@post_process_segments_lookup segments [] r k Hr).
  now destruct (last_with_id segments k).
Qed.


(** ** More on the Translation Adapter *)

Lemma translate_outcome (E : Env) (tr : SubtitleResult)
    (src tgt translator : string) (api_key p : option string)
    (t : TranslatorObj) :
  NoDup (keys tr) ->
  result (init_translator E translator src tgt api_key p) = Ok t ->
  translate_transcribed_result E tr src tgt translator api_key p
  = if is_provider t then
      mkOutcome
        match deep_translator_translate_batch E t (texts tr) with
        | Ok results => fill_texts (map timed tr) results
        | Raise e => Raise e
        end
        p [TranslateBatch t (texts tr)]
    else
      mkOutcome
        (Raise (mkExn AttributeError
                  "'str' object has no attribute 'translate_batch'"))
        p [].
Proof.
  intros Hnd Ht. unfold translate_transcribed_result, bind at 1.
  rewrite init_translator_pure, Ht. cbv beta iota.
  cbn [result model_pref_file trace].
  rewrite (copy_times_spec tr [] []) by exact Hnd. simpl app.
  unfold bind, translate_batch, emit, lift, raise.
  destruct t; simpl;
    try (destruct (deep_translator_translate_batch E _ (texts tr));
         reflexivity).
  reflexivity.
Qed.

(** X9. Once a deep_translator object is built, the adapter makes exactly one
    call, [translate_batch] with all the texts in the order of the
    entries, whatever their number; an exception of that call is raised
    as it is. *)
Theorem translate_single_batched_call (E : Env) (tr : SubtitleResult)
    (src tgt translator : string) (api_key p : option string)
    (t : TranslatorObj) :
  NoDup (keys tr) ->
  result (init_translator E translator src tgt api_key p) = Ok t ->
  is_provider t = true ->
  let o := translate_transcribed_result E tr src tgt translator api_key p in
  trace o = [TranslateBatch t (texts tr)]
  /\ model_pref_file o = p
  /\ forall e, deep_translator_translate_batch E t (texts tr) = Raise e ->
               result o = Raise e.
Proof.
  intros Hnd Ht Hp. cbv zeta.
  rewrite (@translate_outcome E tr src tgt translator api_key p t Hnd Ht), Hp.
  repeat split. intros e He. simpl. now rewrite He.
Qed.

(** X10. With the provider "google" the credential is never used: the adapter
    does the same with and without one. *)
Theorem translate_google_ignores_key (E : Env) (tr : SubtitleResult)
    (src tgt : string) (api_key p : option string) :
  translate_transcribed_result E tr src tgt "google" api_key p
  = translate_transcribed_result E tr src tgt "google" None p.
Proof.
  unfold translate_transcribed_result, init_translator.
  destruct (existsb (String.eqb "google") (SUPPORTED_TRANSLATORS E));
    reflexivity.
Qed.

(** X11. With the providers "microsoft" and "chatgpt" the source language is
    never used: the adapter does the same for any two source languages. *)
Theorem translate_ignores_source_language (E : Env) (tr : SubtitleResult)
    (src src' tgt translator : string) (api_key p : option string) :
  translator = "microsoft" \/ translator = "chatgpt" ->
  translate_transcribed_result E tr src tgt translator api_key p
  = translate_transcribed_result E tr src' tgt translator api_key p.
Proof.
  intros [-> | ->]; unfold translate_transcribed_result, init_translator;
    destruct (existsb _ (SUPPORTED_TRANSLATORS E)); simpl;
    destruct api_key; reflexivity.
Qed.

(** X12. A provider of the supported set that [init_translator] has no branch
    for leaves the provider's name in [translator]: with a credential,
    the adapter then raises [AttributeError] and makes no call. *)
Theorem translate_unhandled_provider (E : Env) (tr : SubtitleResult)
    (src tgt translator api_key : string) (p : option string) :
  In translator (SUPPORTED_TRANSLATORS E) ->
  ~ In translator handled_providers ->
  translate_transcribed_result E tr src tgt translator (Some api_key) p
  = mkOutcome
      (Raise (mkExn AttributeError
                "'str' object has no attribute 'translate_batch'"))
      p [].
Proof.
  intros Hin Hout.
  assert (Hs : existsb (String.eqb translator) (SUPPORTED_TRANSLATORS E)
               = true).
  { apply existsb_exists. exists translator. split; [exact Hin|].
    apply String.eqb_refl. }
  unfold translate_transcribed_result, init_translator. rewrite Hs.
  simpl negb. cbv iota.
  repeat match goal with
         | |- context [String.eqb translator ?n] =>
             destruct (String.eqb_spec translator n) as [->|_];
             [exfalso; apply Hout; simpl; tauto|]
         end.
  unfold bind, ret. simpl.
  now destruct (copy_times tr [] []).
Qed.

(** ** The transcription step as a whole *)

(** X7. For a supported language and a model, [transcribe_audio] leaves the
    preference file alone; if the audio cannot be loaded that error is
    raised and the engine is not called; otherwise the engine is called
    once, with the lower-cased language, its error is raised as it is,
    and its segments are normalized. *)
Theorem transcribe_audio_outcomes (E : Env) (m : Model)
    (audio_file language : string) (p : option string) :
  dict_mem String.eqb (TRANSCRIPTION_SUPPORTED_LANGS E)
    (PyStr.lower language) = true ->
  let o := transcribe_audio E (Some m) audio_file language p in
  model_pref_file o = p
  /\ (forall e, whisper_load_audio E audio_file = Raise e ->
                result o = Raise e /\ trace o = [LoadAudio audio_file])
  /\ (forall audio,
         whisper_load_audio E audio_file = Ok audio ->
         trace o = [LoadAudio audio_file;
                    Transcribe m audio (PyStr.lower language)]
         /\ result o
            = match model_transcribe E m audio (PyStr.lower language) with
              | Ok segments => post_process_result_for_srt segments
              | Raise e => Raise e
              end).
Proof.
  intros Hl. cbv zeta. unfold transcribe_audio. rewrite Hl.
  simpl negb. cbv iota. unfold bind, emit, lift. simpl.
  split; [|split].
  - destruct (whisper_load_audio E audio_file) as [audio|e]; simpl;
      [|reflexivity].
    now destruct (model_transcribe E m audio (PyStr.lower language)).
  - intros e He. rewrite He. simpl. auto.
  - intros audio Ha. rewrite Ha. simpl.
    destruct (model_transcribe E m audio (PyStr.lower language)) as [s|e];
      simpl; rewrite ?app_nil_r; auto.
Qed.

Lemma transcribe_audio_result (E : Env) (model : option Model)
    (audio_file language : string) (p : option string) (r : SubtitleResult) :
  result (transcribe_audio E model audio_file language p) = Ok r ->
  exists segments, post_process_result_for_srt segments = Ok r.
Proof.
  unfold transcribe_audio.
  destruct (dict_mem _ _ _); simpl; [|discriminate].
  unfold bind, emit, lift. simpl.
  destruct (whisper_load_audio E audio_file) as [audio|e]; simpl;
    [|discriminate].
  destruct model as [m|]; simpl; [|discriminate].
  destruct (model_transcribe E m audio (PyStr.lower language)) as [s|e];
    simpl; [|discriminate].
  intros H. now exists s.
Qed.

(** X8. In the pipeline no hypothesis on the ids is needed: a translation of
    what [transcribe_audio] returned has as many entries as it, with the
    same ids and time codes in the same order. *)
Theorem pipeline_translation_keeps_timing (E : Env) (model : option Model)
    (audio_file video_language target_language translator : string)
    (api_key p q : option string) (r out : SubtitleResult) :
  result (transcribe_audio E model audio_file video_language p) = Ok r ->
  result (translate_transcribed_result E r video_language target_language
            translator api_key q) = Ok out ->
  map timing out = map timing r /\ List.length out = List.length r.
Proof.
  intros Hr Hout.
  destruct (transcribe_audio_result _ _ _ _ _ Hr) as [segments Hs].
  pose proof (@post_process_segments_keys segments [] r (NoDup_nil _) Hs)
    as Hnd.
  assert (Ht : exists t,
             result (init_translator E translator video_language
                       target_language api_key q) = Ok t).
  { unfold translate_transcribed_result, bind at 1 in Hout.
    destruct (result (init_translator E translator video_language
                        target_language api_key q)) as [t|e] eqn:Hi.
    - now exists t.
    - simpl in Hout. discriminate. }
  destruct Ht as [t Ht].
  rewrite (@translate_unfold E r _ _ _ _ _ t Hnd Ht) in Hout.
  destruct (result (translate_batch E t (texts r) q)) as [results|e];
    [|discriminate].
  apply fill_texts_frame in Hout. rewrite map_map in Hout.
  assert (Hm : map timing out = map timing r).
  { rewrite Hout. apply map_ext. now intros [id e]. }
  split; [exact Hm|].
  rewrite <- (length_map timing out), Hm. apply length_map.
Qed.

(** ** More on the Language Acquisition Service *)









(** ** More on time codes *)



Lemma floor_unique (q : Q) (k : Z) :
  (inject_Z k <= q)%Q -> (q < inject_Z k + 1)%Q -> Qfloor q = k.
Proof.
  intros Hlo Hhi.
  pose proof (Qfloor_le q) as Flo. pose proof (Qlt_floor q) as Fhi.
  rewrite inject_Z_plus in Fhi. change (inject_Z 1) with 1%Q in Fhi.
  assert (H1 : (inject_Z (Qfloor q) < inject_Z (k + 1))%Q).
  { rewrite inject_Z_plus. change (inject_Z 1) with 1%Q. lra. }
  assert (H2 : (inject_Z k < inject_Z (Qfloor q + 1))%Q).
  { rewrite inject_Z_plus. change (inject_Z 1) with 1%Q. lra. }
  rewrite <- Zlt_Qlt in H1, H2. lia.
Qed.

Lemma round_half_even_comp (x y : Q) :
  (x == y)%Q -> Timestamp.round_half_even x = Timestamp.round_half_even y.
Proof.
  intros H. unfold Timestamp.round_half_even.
  rewrite (Qfloor_comp _ _ H).
  assert (Hc : (x - inject_Z (Qfloor y) == y - inject_Z (Qfloor y))%Q)
    by (rewrite H; reflexivity).
  now rewrite (Qcompare_comp _ _ Hc _ _ (Qeq_refl (1 # 2))).
Qed.

Lemma round_half_even_shift (q : Q) (n : Z) :
  Z.even n = true ->
  Timestamp.round_half_even (q + inject_Z n)
  = Timestamp.round_half_even q + n.
Proof.
  intros Hn. unfold Timestamp.round_half_even.
  assert (Hf : Qfloor (q + inject_Z n) = Qfloor q + n).
  { apply floor_unique.
    - rewrite inject_Z_plus. pose proof (Qfloor_le q). lra.
    - rewrite inject_Z_plus. pose proof (Qlt_floor q) as Fhi.
      rewrite inject_Z_plus in Fhi. change (inject_Z 1) with 1%Q in Fhi.
      lra. }
  rewrite Hf.
  assert (Hc : (q + inject_Z n - inject_Z (Qfloor q + n)
                == q - inject_Z (Qfloor q))%Q).
  { rewrite inject_Z_plus. ring. }
  rewrite (Qcompare_comp _ _ Hc _ _ (Qeq_refl (1 # 2))).
  rewrite Z.even_add, Hn.
  destruct (Qcompare (q - inject_Z (Qfloor q)) (1 # 2)); try lia.
  destruct (Z.even (Qfloor q)); simpl; lia.
Qed.

Lemma round_half_even_mono (x y : Q) :
  (x <= y)%Q ->
  Timestamp.round_half_even x <= Timestamp.round_half_even y.
Proof.
  intros Hxy. pose proof (Qfloor_resp_le _ _ Hxy) as Hf.
  unfold Timestamp.round_half_even.
  pose proof (Qfloor_le x) as Xlo. pose proof (Qfloor_le y) as Ylo.
  destruct (Z.eq_dec (Qfloor x) (Qfloor y)) as [Heq|Hne].
  - rewrite Heq in *.
    destruct (Qcompare_spec (x - inject_Z (Qfloor y)) (1 # 2)) as [Hx|Hx|Hx];
    destruct (Qcompare_spec (y - inject_Z (Qfloor y)) (1 # 2)) as [Hy|Hy|Hy];
      try lra; destruct (Z.even (Qfloor y)); lia.
  - assert (Hlt : Qfloor x + 1 <= Qfloor y) by lia.
    destruct (Qcompare (x - inject_Z (Qfloor x)) (1 # 2));
    destruct (Qcompare (y - inject_Z (Qfloor y)) (1 # 2));
      try destruct (Z.even (Qfloor x)); try destruct (Z.even (Qfloor y));
      lia.
Qed.

Lemma timedelta_is_round (x : Q) :
  Timestamp.timedelta x
  = Timestamp.round_half_even (x * inject_Z 1000000).
Proof.
  unfold Timestamp.timedelta.
  set (s := Timestamp.trunc x).
  rewrite Z.add_comm, <- round_half_even_shift.
  - apply round_half_even_comp. rewrite inject_Z_mult. ring.
  - rewrite Z.even_mul. apply orb_true_r.
Qed.

Lemma timedelta_monotone (x y : Q) :
  (x <= y)%Q -> Timestamp.timedelta x <= Timestamp.timedelta y.
Proof.
  intros H. rewrite !timedelta_is_round. apply round_half_even_mono.
  change (inject_Z 1000000) with (1000000 # 1)%Q. lra.
Qed.

Lemma timedelta_within_day (x : Q) :
  (0 <= x)%Q -> (x < 863999999995 # 10000000)%Q ->
  0 <= Timestamp.timedelta x < 86400000000.
Proof.
  intros H0 Hx.
  destruct (TimestampFacts.timedelta_near x) as [Hlo Hhi].
  change (inject_Z 1000000) with (1000000 # 1)%Q in *.
  split.
  - assert (Hq : (inject_Z (-1) < inject_Z (Timestamp.timedelta x))%Q).
    { change (inject_Z (-1)) with (-1 # 1)%Q. lra. }
    rewrite <- Zlt_Qlt in Hq. lia.
  - assert (Hq : (inject_Z (Timestamp.timedelta x)
                  < inject_Z 86400000000)%Q).
    { change (inject_Z 86400000000) with (86400000000 # 1)%Q. lra. }
    now rewrite <- Zlt_Qlt in Hq.
Qed.

Lemma time_code_within_day (x : Q) :
  (0 <= x)%Q -> (x < 863999999995 # 10000000)%Q ->
  exists t,
    Timestamp.format_timestamp x = Some t
    /\ Timestamp.parse_timestamp t = Some (Timestamp.timedelta x / 1000).
Proof.
  intros H0 Hx. pose proof (timedelta_within_day H0 Hx) as Hus.
  eexists. split.
  - apply TimestampFacts.format_timestamp_in_range.
    unfold Timestamp.us_per_day. lia.
  - rewrite TimestampFacts.parse_strftime. unfold Timestamp.us_per_day.
    now rewrite Z.mod_small by lia.
Qed.

(** X2. Within a day the time codes keep the order of the offsets: if
    0 <= x <= y < 86399.9999995, the code of x does not read later than
    the code of y, so a segment's start does not come after its end. *)
Theorem time_codes_keep_order (x y : Q) :
  (0 <= x)%Q -> (x <= y)%Q -> (y < 863999999995 # 10000000)%Q ->
  exists tx ty mx my,
    Timestamp.format_timestamp x = Some tx
    /\ Timestamp.format_timestamp y = Some ty
    /\ Timestamp.parse_timestamp tx = Some mx
    /\ Timestamp.parse_timestamp ty = Some my
    /\ mx <= my.
Proof.
  intros H0 Hxy Hy.
  destruct (@time_code_within_day x H0 ltac:(lra)) as (tx & Fx & Px).
  destruct (@time_code_within_day y ltac:(lra) Hy) as (ty & Fy & Py).
  exists tx, ty, (Timestamp.timedelta x / 1000),
    (Timestamp.timedelta y / 1000).
  repeat split; try assumption.
  apply Z.div_le_mono; [lia|]. now apply timedelta_monotone.
Qed.

(** ** Discovery of the inputs *)

Lemma scan_streams_outcome (ss : list Stream) (p : option string) :
  Forall (fun s => codec_type s <> None) ss ->
  scan_streams ss p = mkOutcome (Ok (existsb is_video ss)) p [].
Proof.
  induction 1 as [|s ss Hs _ IH]; [reflexivity|].
  simpl. unfold is_video at 1.
  destruct (codec_type s) as [c|]; [|congruence].
  destruct (String.eqb c "video"); [reflexivity | exact IH].
Qed.

Lemma scan_streams_pure (ss : list Stream) (p : option string) :
  model_pref_file (scan_streams ss p) = p /\ trace (scan_streams ss p) = [].
Proof.
  induction ss as [|s ss IH]; simpl; [auto|].
  destruct (codec_type s) as [c|]; [|auto].
  destruct (String.eqb c "video"); auto.
Qed.

Lemma bind_ok A B (m : M A) (k : A -> M B) (p q : option string) (a : A)
    (t : list Event) :
  m p = mkOutcome (Ok a) q t ->
  bind m k p
  = mkOutcome (result (k a q)) (model_pref_file (k a q)) (t ++ trace (k a q)).
Proof. intros Hm. unfold bind. now rewrite Hm. Qed.

Lemma bind_raise A B (m : M A) (k : A -> M B) (p q : option string) (e : Exn)
    (t : list Event) :
  m p = mkOutcome (Raise e) q t -> bind m k p = mkOutcome (Raise e) q t.
Proof. intros Hm. unfold bind. now rewrite Hm. Qed.

Lemma try_ok A (m : M A) (h : Exn -> M A) (p q : option string) (a : A)
    (t : list Event) :
  m p = mkOutcome (Ok a) q t -> try_except m h p = mkOutcome (Ok a) q t.
Proof. intros Hm. unfold try_except. now rewrite Hm. Qed.

Lemma try_raise A (m : M A) (h : Exn -> M A) (p q : option string) (e : Exn)
    (t : list Event) :
  m p = mkOutcome (Raise e) q t ->
  try_except m h p
  = mkOutcome (result (h e q)) (model_pref_file (h e q)) (t ++ trace (h e q)).
Proof. intros Hm. unfold try_except. now rewrite Hm. Qed.

Lemma scan_streams_eta (ss : list Stream) (p : option string) :
  scan_streams ss p = mkOutcome (result (scan_streams ss p)) p [].
Proof.
  destruct (scan_streams_pure ss p) as [Hq Ht].
  destruct (scan_streams ss p) as [r q t]. simpl in *. now subst.
Qed.

Lemma check_probe_error (H : Host) (file : string) (p : option string)
    (e : Exn) :
  ffmpeg_probe H file = Raise e ->
  check_if_file_is_video H file p
  = mkOutcome (Ok None) p
      [Print ("Error probing file: " ++ file); Print (exn_msg e)].
Proof.
  intros Hp. unfold check_if_file_is_video.
  erewrite try_raise;
    [|erewrite bind_raise; [reflexivity|]; unfold lift; now rewrite Hp].
  reflexivity.
Qed.

Lemma check_no_streams (H : Host) (file : string) (p : option string) :
  ffmpeg_probe H file = Ok (mkProbe None) ->
  check_if_file_is_video H file p
  = mkOutcome (Ok (Some false)) p [Print (no_video_msg file)].
Proof.
  intros Hp. unfold check_if_file_is_video.
  erewrite try_ok; [reflexivity|].
  erewrite bind_ok; [|unfold lift; now rewrite Hp].
  reflexivity.
Qed.

Lemma check_streams (H : Host) (file : string) (p : option string)
    (ss : list Stream) :
  ffmpeg_probe H file = Ok (mkProbe (Some ss)) ->
  check_if_file_is_video H file p
  = match result (scan_streams ss p) with
    | Ok true => mkOutcome (Ok (Some true)) p []
    | Ok false => mkOutcome (Ok (Some false)) p [Print (no_video_msg file)]
    | Raise e =>
        mkOutcome (Ok None) p
          [Print ("Error probing file: " ++ file); Print (exn_msg e)]
    end.
Proof.
  intros Hp. unfold check_if_file_is_video.
  pose proof (scan_streams_eta ss p) as Hs.
  destruct (result (scan_streams ss p)) as [[|]|e].
  - erewrite try_ok; [reflexivity|].
    erewrite bind_ok; [|unfold lift; now rewrite Hp].
    cbn [streams]. erewrite bind_ok; [|exact Hs]. reflexivity.
  - erewrite try_ok; [reflexivity|].
    erewrite bind_ok; [|unfold lift; now rewrite Hp].
    cbn [streams]. erewrite bind_ok; [|exact Hs]. reflexivity.
  - erewrite try_raise;
      [|erewrite bind_ok; [|unfold lift; now rewrite Hp];
        cbn [streams]; erewrite bind_raise; [|exact Hs]; reflexivity].
    reflexivity.
Qed.

(** X24. [check_if_file_is_video] never raises and leaves the preference file
    alone: a failed probe gives [None], a probe without streams gives
    [False], and a probe whose streams all have a codec type gives
    whether one of them is a video. *)
Theorem check_if_file_is_video_never_raises (H : Host) (file : string)
    (p : option string) :
  let o := check_if_file_is_video H file p in
  (exists r, result o = Ok r)
  /\ model_pref_file o = p
  /\ (forall e, ffmpeg_probe H file = Raise e -> result o = Ok None)
  /\ (forall ss, ffmpeg_probe H file = Ok (mkProbe (Some ss)) ->
                 Forall (fun s => codec_type s <> None) ss ->
                 result o = Ok (Some (existsb is_video ss)))
  /\ (ffmpeg_probe H file = Ok (mkProbe None) -> result o = Ok (Some false)).
Proof.
  cbv zeta. destruct (ffmpeg_probe H file) as [[[ss|]]|e] eqn:Hp.
  - rewrite (@check_streams H file p ss Hp).
    assert (Hwf : Forall (fun s => codec_type s <> None) ss ->
                  result (scan_streams ss p) = Ok (existsb is_video ss)).
    { intros Hall. now rewrite (@scan_streams_outcome ss p Hall). }
    destruct (result (scan_streams ss p)) as [[|]|e];
      (split; [eexists; reflexivity|]; split; [reflexivity|];
       split; [discriminate|]; split; [|discriminate];
       intros ss' Hss Hall; inversion Hss; subst ss';
       specialize (Hwf Hall); inversion Hwf; reflexivity).
  - rewrite (@check_no_streams H file p Hp).
    split; [eexists; reflexivity|]. split; [reflexivity|].
    split; [discriminate|]. split; [discriminate|]. reflexivity.
  - rewrite (@check_probe_error H file p e Hp).
    split; [eexists; reflexivity|]. split; [reflexivity|].
    split; [reflexivity|]. split; discriminate.
Qed.

Lemma scan_streams_result (ss : list Stream) (p q : option string) :
  result (scan_streams ss p) = result (scan_streams ss q).
Proof.
  induction ss as [|s ss IH]; simpl; [reflexivity|].
  destruct (codec_type s) as [c|]; [|reflexivity].
  destruct (String.eqb c "video"); [reflexivity | exact IH].
Qed.

Lemma check_outcome (H : Host) (file : string) (p : option string) :
  exists r t,
    check_if_file_is_video H file p = mkOutcome (Ok r) p t
    /\ truthy r = is_video_file H file.
Proof.
  unfold is_video_file.
  destruct (ffmpeg_probe H file) as [[[ss|]]|e] eqn:Hp.
  - rewrite (@check_streams H file p ss Hp), (@check_streams H file None ss Hp).
    rewrite (scan_streams_result ss p None).
    destruct (result (scan_streams ss None)) as [[|]|e]; eauto.
  - rewrite (@check_no_streams H file p Hp), (@check_no_streams H file None Hp).
    eauto.
  - rewrite (@check_probe_error H file p e Hp),
      (@check_probe_error H file None e Hp). eauto.
Qed.

Lemma append_videos_outcome (H : Host) (cwd : string) (files : list string) :
  forall (acc : list string) (p : option string),
    exists t,
      append_videos H cwd files acc p
      = mkOutcome
          (Ok (acc ++ filter (is_video_file H)
                        (map (fun afile => (cwd ++ delim H ++ afile)%string) files))%list)
          p t.
Proof.
  induction files as [|f rest IH]; intros acc p.
  - exists []. simpl. now rewrite app_nil_r.
  - cbn [append_videos map filter].
    destruct (check_outcome H (cwd ++ delim H ++ f) p) as (r & t & Hc & Hr).
    erewrite bind_ok; [|exact Hc]. rewrite <- Hr.
    destruct (IH (if truthy r then (acc ++ [(cwd ++ delim H ++ f)%string])%list else acc) p)
      as [t' Ht'].
    rewrite Ht'. cbn [result model_pref_file trace].
    exists (t ++ t')%list. destruct (truthy r); [|reflexivity].
    now rewrite <- app_assoc.
Qed.

Lemma walk_videos_outcome (H : Host)
    (walk : list (string * list string * list string)) :
  forall (acc : list string) (p : option string),
    exists t,
      walk_videos H walk acc p
      = mkOutcome
          (Ok (acc ++ filter (is_video_file H)
                        (flat_map
                           (fun entry =>
                              map (fun afile =>
                                     (fst (fst entry) ++ delim H ++ afile)%string)
                                (snd entry)) walk))%list)
          p t.
Proof.
  induction walk as [|[[cwd dirs] files] rest IH]; intros acc p.
  - exists []. simpl. now rewrite app_nil_r.
  - cbn [walk_videos flat_map fst snd].
    destruct (append_videos_outcome H cwd files acc p) as [t Ht].
    erewrite bind_ok; [|exact Ht].
    destruct (IH (acc ++ filter (is_video_file H)
                          (map (fun afile => (cwd ++ delim H ++ afile)%string) files))%list
                p) as [t' Ht'].
    rewrite Ht'. cbn [result model_pref_file trace].
    exists (t ++ t')%list. now rewrite filter_app, app_assoc.
Qed.

(** X25. [find_vid_files_in_dir] never raises: it returns, in the order of the
    walk, exactly the files that [check_if_file_is_video] accepts; a file
    that cannot be probed is left out. *)
Theorem find_vid_files_in_dir_filters (H : Host) (target_dir : string)
    (p : option string) :
  let o := find_vid_files_in_dir H target_dir p in
  result o = Ok (filter (is_video_file H) (candidates H target_dir))
  /\ model_pref_file o = p.
Proof.
  cbv zeta. unfold find_vid_files_in_dir, candidates.
  destruct (walk_videos_outcome H (os_walk H target_dir) [] p) as [t Ht].
  rewrite Ht. auto.
Qed.

(** ** The names of the audio files *)

Lemma last_component_of_path (H : Host) (dir file : string) :
  contains (DIR_DELIM H) file = false ->
  last_component H (dir ++ delim H ++ file) = file.
Proof.
  intros Hf. unfold last_component, delim. cbn [append].
  rewrite split_app, (@split_whole (DIR_DELIM H) file Hf).
  apply last_last.
Qed.

(** X26. The audio file of dir/name.ext is TEMP_DIR/name.wav: the directory
    and the extension of the video do not count. *)
Theorem wav_name_of_path (H : Host) (dir name ext : string) :
  contains (DIR_DELIM H) (name ++ "." ++ ext) = false ->
  contains "." ext = false ->
  wav_name H (dir ++ delim H ++ name ++ "." ++ ext)
  = TEMP_DIR H ++ delim H ++ name ++ ".wav".
Proof.
  intros Hd He. unfold wav_name.
  rewrite (@last_component_of_path H dir (name ++ "." ++ ext) Hd).
  now rewrite (@base_name_drops_last_extension name ext He).
Qed.

Lemma gen_wav_file_ok (H : Host) (vid_file : string)
    (file_map : dict string string) (p : option string) :
  ffmpeg_run H vid_file (wav_name H vid_file) = Ok tt ->
  gen_wav_file H vid_file file_map p
  = mkOutcome
      (Ok (wav_name H vid_file,
           dict_set String.eqb file_map (wav_name H vid_file) vid_file))
      p
      [Print ("generated wav file for " ++ vid_file ++ " in " ++ TEMP_DIR H)].
Proof.
  intros Hr. unfold gen_wav_file.
  erewrite bind_ok; [|unfold lift; now rewrite Hr]. reflexivity.
Qed.

Lemma gen_wav_file_result (H : Host) (vid_file : string)
    (file_map : dict string string) (p : option string)
    (r : string * dict string string) :
  result (gen_wav_file H vid_file file_map p) = Ok r ->
  r = (wav_name H vid_file,
       dict_set String.eqb file_map (wav_name H vid_file) vid_file)
  /\ model_pref_file (gen_wav_file H vid_file file_map p) = p.
Proof.
  destruct (ffmpeg_run H vid_file (wav_name H vid_file)) as [[]|e] eqn:Hr.
  - rewrite (@gen_wav_file_ok H vid_file file_map p Hr). simpl.
    intros Heq. inversion Heq. auto.
  - unfold gen_wav_file.
    erewrite bind_raise; [|unfold lift; now rewrite Hr]. discriminate.
Qed.

Lemma names_audio_set (H : Host) (m : dict string string) (v : string) :
  names_audio H m ->
  names_audio H (dict_set String.eqb m (wav_name H v) v).
Proof.
  intros Hm k v' Hk. destruct (string_dec k (wav_name H v)) as [->|Hne].
  - rewrite (@dict_get_set_same string string String.eqb String.eqb_eq) in Hk.
    now inversion Hk.
  - rewrite (@dict_get_set_other string string String.eqb String.eqb_eq) in Hk
      by exact Hne.
    now apply Hm.
Qed.

Lemma keys_dict_set_incl (m : dict string string) (k v x : string) :
  In x (keys m) -> In x (keys (dict_set String.eqb m k v)).
Proof.
  intros Hx.
  destruct (@In_dec_keys string string String.eqb String.eqb_eq m k)
    as [Hin|Hout].
  - now rewrite (@keys_dict_set_in string string String.eqb String.eqb_eq).
  - rewrite (@keys_dict_set_fresh string string String.eqb String.eqb_eq)
      by exact Hout.
    apply in_or_app. now left.
Qed.

Lemma gen_wav_files_invariant (H : Host) (vids : list string) :
  forall (m : dict string string) (a : list string) (p : option string)
         (m' : dict string string) (a' : list string),
    result (gen_wav_files H vids m a p) = Ok (m', a') ->
    names_audio H m ->
    Forall (fun x => In x (keys m)) a ->
    names_audio H m'
    /\ Forall (fun x => In x (keys m')) a'
    /\ List.length a' = (List.length a + List.length vids)%nat.
Proof.
  induction vids as [|v rest IH]; intros m a p m' a' Hres Hm Ha.
  - simpl in Hres. inversion Hres; subst. rewrite Nat.add_0_r. auto.
  - cbn [gen_wav_files] in Hres. unfold bind at 1 in Hres.
    destruct (result (gen_wav_file H v m p)) as [r|e] eqn:Hg;
      [|discriminate].
    destruct (@gen_wav_file_result H v m p r Hg) as [-> Hp].
    cbn [result fst snd] in Hres.
    apply IH in Hres.
    + destruct Hres as (Hm' & Ha' & Hlen). split; [exact Hm'|].
      split; [exact Ha'|]. rewrite Hlen, length_app. simpl. lia.
    + now apply names_audio_set.
    + apply Forall_app. split.
      * eapply Forall_impl; [|exact Ha]. intros x. apply keys_dict_set_incl.
      * constructor; [|constructor].
        eapply (@dict_get_key string string String.eqb String.eqb_eq).
        apply (@dict_get_set_same string string String.eqb String.eqb_eq).
Qed.

Lemma checked_videos_outcome (H : Host) (fs : list string) :
  forall p, exists t,
    checked_videos H fs p
    = mkOutcome (Ok (filter (is_video_file H) fs)) p t.
Proof.
  induction fs as [|f rest IH]; intros p.
  - exists []. reflexivity.
  - cbn [checked_videos filter].
    destruct (check_outcome H f p) as (r & t & Hc & Hr).
    destruct (IH p) as [t' Ht'].
    erewrite bind_ok; [|exact Hc].
    erewrite bind_ok; [|exact Ht'].
    rewrite <- Hr. cbn [result model_pref_file trace ret app].
    eexists. reflexivity.
Qed.

(** X27. Every audio file that [process_args] hands to [subtitle] is a key of
    the map it hands over, and the video there is one whose audio name it
    is: the lookups of [subtitle] in the map do not fail. *)
Theorem process_args_inputs_have_videos (H : Host)
    (video_files : option (list string)) (video_dir : option string)
    (p q : option string) (vid_file_map : dict string string)
    (audio_files : list string) :
  result (process_args_inputs H video_files video_dir p)
  = Ok (vid_file_map, audio_files) ->
  forall audio_file,
    In audio_file audio_files ->
    exists v,
      vid_file vid_file_map audio_file q = mkOutcome (Ok v) q []
      /\ wav_name H v = audio_file.
Proof.
  intros Hres.
  assert (Hinv : names_audio H vid_file_map
                 /\ Forall (fun x => In x (keys vid_file_map)) audio_files).
  { assert (Hempty : names_audio H []) by (intros k v Hk; discriminate).
    unfold process_args_inputs in Hres.
    destruct video_files as [fs|], video_dir as [d|].
    - simpl in Hres. inversion Hres; subst. split; [exact Hempty|constructor].
    - destruct (checked_videos_outcome H fs p) as [t Ht].
      erewrite bind_ok in Hres; [|exact Ht].
      cbn [result] in Hres.
      destruct (@gen_wav_files_invariant H _ _ _ _ _ _ Hres Hempty
                  (Forall_nil _))
        as (Hm & Ha & _).
      auto.
    - unfold find_vid_files_in_dir in Hres.
      destruct (walk_videos_outcome H (os_walk H d) [] p) as [t Ht].
      erewrite bind_ok in Hres; [|exact Ht].
      cbn [result] in Hres.
      destruct (@gen_wav_files_invariant H _ _ _ _ _ _ Hres Hempty
                  (Forall_nil _))
        as (Hm & Ha & _).
      auto.
    - discriminate. }
  destruct Hinv as [Hm Ha]. intros a Hin.
  rewrite Forall_forall in Ha. specialize (Ha a Hin).
  destruct (@key_dict_get string string String.eqb String.eqb_eq
              vid_file_map a Ha) as [v Hv].
  exists v. split; [|exact (Hm a v Hv)].
  unfold vid_file. now rewrite Hv.
Qed.

(** X28. Two videos with the same audio name share one audio file: after
    both, the list holds that name twice and the map gives the later
    video for it. *)
Theorem same_stem_videos_collide (H : Host) (v1 v2 : string)
    (file_map : dict string string) (p : option string) :
  wav_name H v1 = wav_name H v2 ->
  ffmpeg_run H v1 (wav_name H v1) = Ok tt ->
  ffmpeg_run H v2 (wav_name H v2) = Ok tt ->
  exists m,
    result (gen_wav_files H [v1; v2] file_map [] p)
    = Ok (m, [wav_name H v1; wav_name H v1])
    /\ dict_get String.eqb m (wav_name H v1) = Some v2.
Proof.
  intros Hw H1 H2. cbn [gen_wav_files].
  erewrite bind_ok; [|exact (@gen_wav_file_ok H v1 file_map p H1)].
  cbn [fst snd result app].
  erewrite bind_ok; [|apply (@gen_wav_file_ok H v2 _ p H2)].
  cbn [fst snd result app ret]. rewrite <- Hw.
  eexists. split; [reflexivity|].
  apply (@dict_get_set_same string string String.eqb String.eqb_eq).
Qed.

(** ** Language detection *)

Lemma max_from_first_maximum (items : list (string * Q)) :
  forall best, first_maximum (max_from best items) (best :: items).
Proof.
  induction items as [|[k v] rest IH]; intros [bk bv]; unfold first_maximum.
  - exists bv, nil, nil. simpl. auto.
  - simpl max_from. destruct (Qle_bool v bv) eqn:Hle.
    + apply Qle_bool_iff in Hle.
      destruct (IH (bk, bv)) as (m & before & after & Heq & Hb & Ha).
      set (K := max_from (bk, bv) rest) in *.
      destruct before as [|b0 before]; simpl in Heq.
      * injection Heq as Hk Hv Hrest. rewrite <- Hk.
        exists bv, nil, ((k, v) :: rest). simpl.
        split; [reflexivity|]. split; [constructor|].
        constructor; [exact Hle|]. rewrite Hrest, Hv. exact Ha.
      * injection Heq as Hhead Hrest.
        exists m, ((bk, bv) :: (k, v) :: before), after.
        rewrite Hrest. split; [reflexivity|]. split; [|exact Ha].
        inversion Hb as [|? ? Hb0 Hb']. rewrite <- Hhead in Hb0.
        constructor; [exact Hb0|]. constructor; [|exact Hb'].
        simpl in *. lra.
    + assert (Hlt : (bv < v)%Q).
      { apply Qnot_le_lt. intros Hc. apply Qle_bool_iff in Hc. congruence. }
      destruct (IH (k, v)) as (m & before & after & Heq & Hb & Ha).
      set (K := max_from (k, v) rest) in *.
      exists m, ((bk, bv) :: before), after. rewrite Heq.
      split; [reflexivity|]. split; [|exact Ha].
      constructor; [|exact Hb]. simpl.
      destruct before as [|b0 before]; simpl in Heq.
      * injection Heq as Hk Hv Hrest. rewrite <- Hv. exact Hlt.
      * injection Heq as Hhead Hrest.
        inversion Hb as [|? ? Hb0 _]. rewrite <- Hhead in Hb0.
        simpl in Hb0. lra.
Qed.

(** X29. [detect_lang] returns a language of greatest probability, and of
    several the first in the order of the dictionary; an empty
    dictionary raises. *)
Theorem detect_lang_picks_first_maximum (E : Env) (H : Host) (m : Model)
    (audio_file : string) (audio : Audio) (probs : dict string Q)
    (p : option string) :
  whisper_load_audio E audio_file = Ok audio ->
  model_detect_language H m audio = Ok probs ->
  let o := detect_lang E H (Some m) audio_file p in
  (probs = [] -> exists e, result o = Raise e)
  /\ (probs <> [] ->
      exists k, result o = Ok k /\ first_maximum k probs).
Proof.
  intros Ha Hd. cbv zeta. unfold detect_lang.
  erewrite bind_ok; [|reflexivity].
  erewrite bind_ok; [|unfold lift; now rewrite Ha].
  erewrite bind_ok; [|unfold lift; now rewrite Hd].
  cbn [result]. unfold max_key.
  destruct probs as [|item rest].
  - split; [intros _; eexists; reflexivity | congruence].
  - split; [discriminate|]. intros _.
    exists (max_from item rest). split; [reflexivity|].
    apply max_from_first_maximum.
Qed.

(** ** More on the Pipeline Orchestrator *)

Lemma bind_ext A B (m : M A) (k k' : A -> M B) (p : option string) :
  (forall a q, k a q = k' a q) -> bind m k p = bind m k' p.
Proof.
  intros Hk. unfold bind. destruct (result (m p)); [|reflexivity].
  now rewrite Hk.
Qed.

Lemma result_bind_ok A B (m : M A) (k : A -> M B) (p q : option string)
    (a : A) (t : list Event) :
  m p = mkOutcome (Ok a) q t -> result (bind m k p) = result (k a q).
Proof. intros Hm. unfold bind. now rewrite Hm. Qed.

Lemma trace_bind_ok A B (m : M A) (k : A -> M B) (p q : option string)
    (a : A) (t : list Event) :
  m p = mkOutcome (Ok a) q t ->
  trace (bind m k p) = (t ++ trace (k a q))%list.
Proof. intros Hm. unfold bind. now rewrite Hm. Qed.

Lemma result_bind_raise A B (m : M A) (k : A -> M B) (p q : option string)
    (e : Exn) (t : list Event) :
  m p = mkOutcome (Raise e) q t -> result (bind m k p) = Raise e.
Proof. intros Hm. unfold bind. now rewrite Hm. Qed.

Lemma trace_bind_raise A B (m : M A) (k : A -> M B) (p q : option string)
    (e : Exn) (t : list Event) :
  m p = mkOutcome (Raise e) q t -> trace (bind m k p) = t.
Proof. intros Hm. unfold bind. now rewrite Hm. Qed.

Lemma progress_outcome (mode : option string) (u : bool) (st : Steps)
    (p : option string) :
  print_and_update_progress mode u st p
  = mkOutcome (Ok (advance (is_gui mode) u st)) p
      (if is_gui mode then [Progress (current_step st) (total_steps st)]
       else []).
Proof.
  unfold print_and_update_progress, advance.
  destruct (is_gui mode), u; reflexivity.
Qed.

Lemma step_of_untouched (e : Event) :
  touches_input e = false -> step_of e = [].
Proof.
  intros He. destruct e; try reflexivity;
    unfold touches_input in He; simpl in He; discriminate.
Qed.

Lemma schedule_untouched (t : list Event) :
  Forall (fun e => touches_input e = false) t -> schedule t = [].
Proof. apply (@flat_map_avoided _ step_of touches_input step_of_untouched). Qed.

Lemma schedule_app (s t : list Event) :
  schedule (s ++ t) = (schedule s ++ schedule t)%list.
Proof. apply flat_map_app. Qed.

Lemma outcome_eta A (o : Outcome A) :
  o = mkOutcome (result o) (model_pref_file o) (trace o).
Proof. now destruct o. Qed.

Section Run.
Variable E : Env.
Variable vid_file_map : dict string string.
Variable video_language : string.
Variable translation_languages : list string.
Variable translation_service : string.
Variable translation_service_api_key : option string.
Variable model_size : option string.
Variable mode : option string.

(** The run up to the first input, when the model service returns. *)
Lemma subtitle_steps_after_init (audio_files : list string)
    (p : option string) (model : option Model) :
  result (init_model E model_size p) = Ok model ->
  exists before st,
    Forall (fun e => touches_input e = false) before
    /\ loaded_sizes before = loaded_sizes (trace (init_model E model_size p))
    /\ let s := subtitle_steps E vid_file_map audio_files video_language
                  translation_languages translation_service
                  translation_service_api_key model_size mode p in
       let o := inputs E vid_file_map video_language translation_languages
                  translation_service translation_service_api_key mode
                  model audio_files st
                  (model_pref_file (init_model E model_size p)) in
       result s = result o /\ trace s = (before ++ trace o)%list.
Proof.
  intros Hinit.
  pose proof (untouched_init_model E model_size p) as Hav.
  pose proof (outcome_eta (init_model E model_size p)) as Heta.
  rewrite Hinit in Heta.
  set (p1 := model_pref_file (init_model E model_size p)) in *.
  set (t0 := trace (init_model E model_size p)) in *.
  unfold subtitle_steps. cbv zeta.
  eexists _, _. split; [|split; [|split]].
  3:{ erewrite result_bind_ok; [|apply progress_outcome].
      erewrite result_bind_ok; [|exact Heta].
      erewrite result_bind_ok; [|apply progress_outcome].
      erewrite result_bind_ok; [|reflexivity].
      erewrite result_bind_ok; [|apply progress_outcome].
      reflexivity. }
  3:{ erewrite trace_bind_ok; [|apply progress_outcome].
      erewrite trace_bind_ok; [|exact Heta].
      erewrite trace_bind_ok; [|apply progress_outcome].
      erewrite trace_bind_ok; [|reflexivity].
      erewrite trace_bind_ok; [|apply progress_outcome].
      rewrite !app_assoc. reflexivity. }
  - repeat (apply Forall_app; split); try exact Hav;
      destruct (is_gui mode); repeat constructor.
  - unfold loaded_sizes. rewrite !flat_map_app.
    destruct (is_gui mode); simpl; now rewrite ?app_nil_r.
Qed.

Lemma subtitle_of_steps (audio_files : list string) (p : option string) :
  let o := subtitle E vid_file_map audio_files video_language
             translation_languages translation_service
             translation_service_api_key model_size mode p in
  let s := subtitle_steps E vid_file_map audio_files video_language
             translation_languages translation_service
             translation_service_api_key model_size mode p in
  trace o = trace s
  /\ result o = match result s with Ok _ => Ok tt | Raise e => Raise e end.
Proof.
  cbv zeta. unfold subtitle, bind.
  destruct (result (subtitle_steps _ _ _ _ _ _ _ _ _ _)); simpl;
    rewrite ?app_nil_r; auto.
Qed.

Lemma transcribe_audio_rejects (model : option Model)
    (audio_file language : string) (p : option string) :
  dict_mem String.eqb (TRANSCRIPTION_SUPPORTED_LANGS E)
    (PyStr.lower language) = false ->
  transcribe_audio E model audio_file language p
  = mkOutcome (Raise (mkExn Exception unsupported_language_msg)) p [].
Proof. intros Hl. unfold transcribe_audio. now rewrite Hl. Qed.

(** X21. An unsupported source language is found only at the first input:
    the run raises the unsupported-language error after the model service
    has made all its load attempts, and before any input is read. *)
Theorem unsupported_language_found_after_model_load
    (audio_file v : string) (rest : list string) (p : option string)
    (model : option Model) :
  result (init_model E model_size p) = Ok model ->
  dict_get String.eqb vid_file_map audio_file = Some v ->
  dict_mem String.eqb (TRANSCRIPTION_SUPPORTED_LANGS E)
    (PyStr.lower video_language) = false ->
  let o := subtitle E vid_file_map (audio_file :: rest) video_language
             translation_languages translation_service
             translation_service_api_key model_size mode p in
  result o = Raise (mkExn Exception unsupported_language_msg)
  /\ schedule (trace o) = []
  /\ loaded_sizes (trace o)
     = loaded_sizes (trace (init_model E model_size p)).
Proof.
  intros Hinit Hv Hl.
  destruct (subtitle_of_steps (audio_file :: rest) p) as [Ht Hr].
  cbv zeta. rewrite Ht, Hr.
  destruct (@subtitle_steps_after_init (audio_file :: rest) p model Hinit)
    as (before & st & Hb & Hsizes & Hres & Htrace).
  rewrite Hres, Htrace. clear Hres Htrace Ht Hr. cbn [inputs].
  assert (Hvid : forall q, vid_file vid_file_map audio_file q
                           = mkOutcome (Ok v) q []).
  { intros q. unfold vid_file. now rewrite Hv. }
  split; [|split].
  - erewrite result_bind_ok; [|apply Hvid].
    erewrite result_bind_ok; [|reflexivity].
    erewrite result_bind_raise;
      [|apply transcribe_audio_rejects; exact Hl].
    reflexivity.
  - erewrite trace_bind_ok; [|apply Hvid].
    erewrite trace_bind_ok; [|reflexivity].
    erewrite trace_bind_raise;
      [|apply transcribe_audio_rejects; exact Hl].
    now rewrite schedule_app, (schedule_untouched Hb).
  - erewrite trace_bind_ok; [|apply Hvid].
    erewrite trace_bind_ok; [|reflexivity].
    erewrite trace_bind_raise;
      [|apply transcribe_audio_rejects; exact Hl].
    unfold loaded_sizes in *. rewrite flat_map_app. simpl.
    rewrite app_nil_r. exact Hsizes.
Qed.

Lemma transcribe_audio_ok_shape (model : option Model)
    (audio_file language : string) (p : option string) (r : SubtitleResult) :
  result (transcribe_audio E model audio_file language p) = Ok r ->
  exists m audio,
    model = Some m
    /\ transcribe_audio E model audio_file language p
       = mkOutcome (Ok r) p
           [LoadAudio audio_file; Transcribe m audio (PyStr.lower language)].
Proof.
  unfold transcribe_audio.
  destruct (dict_mem _ _ _); simpl negb; cbv iota; [|discriminate].
  unfold bind, emit, lift. simpl.
  destruct (whisper_load_audio E audio_file) as [audio|e]; simpl;
    [|discriminate].
  destruct model as [m|]; simpl; [|discriminate].
  destruct (model_transcribe E m audio (PyStr.lower language)) as [s|e];
    simpl; [|discriminate].
  intros Hr. exists m, audio. rewrite Hr. auto.
Qed.

Lemma translate_config_outcome (r : SubtitleResult)
    (src tgt translator : string) (api_key p : option string) :
  (translator <> "google" /\ api_key = None)
  \/ ~ In translator (SUPPORTED_TRANSLATORS E) ->
  exists msg,
    translate_transcribed_result E r src tgt translator api_key p
    = mkOutcome (Raise (mkExn Exception msg)) p []
    /\ (msg = unsupported_translator_msg \/ msg = api_key_msg).
Proof.
  intros Hcfg. unfold translate_transcribed_result, init_translator, bind.
  destruct (existsb (String.eqb translator) (SUPPORTED_TRANSLATORS E)) eqn:Hs.
  - assert (Hin : In translator (SUPPORTED_TRANSLATORS E)).
    { apply existsb_exists in Hs. destruct Hs as [x [Hx Hxe]].
      apply String.eqb_eq in Hxe. now subst. }
    destruct Hcfg as [[Hg ->]|Hn]; [|contradiction].
    simpl negb. cbv iota.
    destruct (String.eqb_spec translator "google") as [->|_]; [congruence|].
    exists api_key_msg. simpl. auto.
  - exists unsupported_translator_msg. simpl. auto.
Qed.

(** X22. A provider outside the supported set, or one without its credential,
    is found only at the first translation: the run raises the
    configuration error after the first input has been read, transcribed
    and saved as its default track. *)
Theorem provider_error_found_after_first_transcript
    (audio_file v c l : string) (rest ls : list string) (p : option string)
    (model : option Model) (r : SubtitleResult) :
  translation_languages = l :: ls ->
  result (init_model E model_size p) = Ok model ->
  dict_get String.eqb vid_file_map audio_file = Some v ->
  result (transcribe_audio E model audio_file video_language
            (model_pref_file (init_model E model_size p))) = Ok r ->
  get_lang_iso_code E (PyStr.lower video_language) = Some c ->
  (translation_service <> "google" /\ translation_service_api_key = None)
  \/ ~ In translation_service (SUPPORTED_TRANSLATORS E) ->
  let o := subtitle E vid_file_map (audio_file :: rest) video_language
             translation_languages translation_service
             translation_service_api_key model_size mode p in
  (exists msg, result o = Raise (mkExn Exception msg)
               /\ (msg = unsupported_translator_msg \/ msg = api_key_msg))
  /\ schedule (trace o)
     = [Load audio_file; Recognise (PyStr.lower video_language);
        Save (base_name v ++ ".default." ++ c ++ ".srt")].
Proof.
  intros Hlangs Hinit Hv Hr Hc Hcfg.
  destruct (subtitle_of_steps (audio_file :: rest) p) as [Ht Hres].
  cbv zeta. rewrite Ht, Hres.
  destruct (@subtitle_steps_after_init (audio_file :: rest) p model Hinit)
    as (before & st & Hb & _ & Hres' & Htrace).
  rewrite Hres', Htrace. clear Hres' Htrace Ht Hres.
  set (p1 := model_pref_file (init_model E model_size p)) in *.
  destruct (transcribe_audio_ok_shape _ _ _ _ Hr) as (m & audio & _ & Htr).
  assert (Hvid : forall q, vid_file vid_file_map audio_file q
                           = mkOutcome (Ok v) q []).
  { intros q. unfold vid_file. now rewrite Hv. }
  pose proof (@save_result_as_srt_known E r video_language v c true p1 Hc)
    as Hsave. cbv zeta in Hsave.
  destruct (translate_config_outcome r video_language l p1 Hcfg)
    as (msg & Hmsg & Hor).
  assert (Htl : forall st',
             translations E vid_file_map video_language translation_service
               translation_service_api_key mode r audio_file
               translation_languages st' p1
             = mkOutcome (Raise (mkExn Exception msg)) p1
                 [Print (tab ++ "Translating subtitles to another language: "
                         ++ l)]).
  { intros st'. rewrite Hlangs. cbn [translations].
    erewrite bind_ok; [|reflexivity].
    erewrite bind_raise; [|exact Hmsg]. reflexivity. }
  cbn [inputs]. split.
  - exists msg. split; [|exact Hor].
    erewrite result_bind_ok; [|apply Hvid].
    erewrite result_bind_ok; [|reflexivity].
    erewrite result_bind_ok; [|exact Htr].
    erewrite result_bind_ok; [|reflexivity].
    erewrite result_bind_ok; [|apply progress_outcome].
    erewrite result_bind_ok; [|apply Hvid].
    erewrite result_bind_ok; [|exact Hsave].
    erewrite result_bind_ok; [|reflexivity].
    erewrite result_bind_ok; [|apply progress_outcome].
    erewrite result_bind_raise; [|apply Htl]. reflexivity.
  - erewrite trace_bind_ok; [|apply Hvid].
    erewrite trace_bind_ok; [|reflexivity].
    erewrite trace_bind_ok; [|exact Htr].
    erewrite trace_bind_ok; [|reflexivity].
    erewrite trace_bind_ok; [|apply progress_outcome].
    erewrite trace_bind_ok; [|apply Hvid].
    erewrite trace_bind_ok; [|exact Hsave].
    erewrite trace_bind_ok; [|reflexivity].
    erewrite trace_bind_ok; [|apply progress_outcome].
    erewrite trace_bind_raise; [|apply Htl].
    rewrite !schedule_app, (schedule_untouched Hb).
    destruct (is_gui mode); reflexivity.
Qed.

Lemma bind_ok_inv A B (m : M A) (k : A -> M B) (p : option string) (b : B) :
  result (bind m k p) = Ok b ->
  exists a,
    result (m p) = Ok a
    /\ result (k a (model_pref_file (m p))) = Ok b
    /\ trace (bind m k p)
       = (trace (m p) ++ trace (k a (model_pref_file (m p))))%list.
Proof.
  unfold bind. destruct (result (m p)) as [a|e]; simpl; [|discriminate].
  intros Hk. exists a. auto.
Qed.

Lemma init_translator_target (translator src tgt : string)
    (api_key q : option string) (t : TranslatorObj) :
  result (init_translator E translator src tgt api_key q) = Ok t ->
  is_provider t = true ->
  target t = tgt.
Proof.
  unfold init_translator, construct.
  repeat match goal with
         | |- context [if ?b then _ else _] => destruct b
         | |- context [match api_key with _ => _ end] => destruct api_key
         end;
    try discriminate;
    try (unfold bind, lift, ret; simpl;
         match goal with
         | |- context [deep_translator_init E ?x] =>
             destruct (deep_translator_init E x); simpl
         end;
         intros Ht; inversion Ht; reflexivity).
  simpl. intros Ht. inversion Ht. discriminate.
Qed.

Lemma translate_schedule (r out : SubtitleResult) (src tgt : string)
    (q : option string) :
  result (translate_transcribed_result E r src tgt translation_service
            translation_service_api_key q) = Ok out ->
  schedule (trace (translate_transcribed_result E r src tgt
                     translation_service translation_service_api_key q))
  = [Translate tgt].
Proof.
  intros Hout. unfold translate_transcribed_result in *.
  destruct (bind_ok_inv _ _ _ Hout) as (t & Hinit & Hk & Htrace).
  rewrite Htrace. clear Htrace Hout.
  rewrite init_translator_pure in Hk |- *.
  cbn [model_pref_file trace app] in *.
  destruct (copy_times r [] []) as [timed_entries cache].
  destruct (bind_ok_inv _ _ _ Hk) as (results & Hb & _ & Htrace).
  rewrite Htrace. clear Htrace Hk.
  assert (Hp : is_provider t = true).
  { destruct t; try reflexivity. discriminate Hb. }
  rewrite <- (init_translator_target _ _ _ _ _ Hinit Hp).
  destruct t; try discriminate Hp; reflexivity.
Qed.

Lemma save_schedule (r : SubtitleResult) (language v n : string) (d : bool)
    (q : option string) :
  result (save_result_as_srt E r language v d q) = Ok n ->
  n = srt_name E v language d
  /\ schedule (trace (save_result_as_srt E r language v d q)) = [Save n].
Proof.
  unfold save_result_as_srt, srt_name, bind, lift, emit, ret.
  destruct (srt_file_name E (PyStr.lower language) v d) as [n'|e]; simpl;
    [|discriminate].
  intros Hn. inversion Hn. auto.
Qed.

Lemma vid_file_ok (audio_file v : string) (q : option string) :
  result (vid_file vid_file_map audio_file q) = Ok v ->
  v = video vid_file_map audio_file
  /\ trace (vid_file vid_file_map audio_file q) = [].
Proof.
  unfold vid_file, video.
  destruct (dict_get String.eqb vid_file_map audio_file); simpl;
    [|discriminate].
  intros Hv. inversion Hv. auto.
Qed.

Lemma progress_trace (u : bool) (st : Steps) (q : option string) :
  schedule (trace (print_and_update_progress mode u st q)) = [].
Proof. rewrite progress_outcome. now destruct (is_gui mode). Qed.

Lemma translations_schedule (r : SubtitleResult) (audio_file : string)
    (langs : list string) :
  forall (st st' : Steps) (p : option string),
    result (translations E vid_file_map video_language translation_service
              translation_service_api_key mode r audio_file langs st p)
    = Ok st' ->
    schedule (trace (translations E vid_file_map video_language
                       translation_service translation_service_api_key mode
                       r audio_file langs st p))
    = flat_map (fun l => [Translate l;
                          Save (srt_name E (video vid_file_map audio_file)
                                  l false)]) langs.
Proof.
  induction langs as [|l rest IH]; intros st st' p Hres; [reflexivity|].
  cbn [translations flat_map] in *.
  destruct (bind_ok_inv _ _ _ Hres) as (x1 & _ & K1 & T1).
  rewrite T1. clear T1 Hres.
  destruct (bind_ok_inv _ _ _ K1) as (r2 & H2 & K2 & T2).
  rewrite T2. clear T2 K1.
  destruct (bind_ok_inv _ _ _ K2) as (x3 & _ & K3 & T3).
  rewrite T3. clear T3 K2.
  destruct (bind_ok_inv _ _ _ K3) as (st3 & _ & K4 & T4).
  rewrite T4. clear T4 K3.
  destruct (bind_ok_inv _ _ _ K4) as (v & H5 & K5 & T5).
  rewrite T5. clear T5 K4.
  destruct (bind_ok_inv _ _ _ K5) as (n & H6 & K6 & T6).
  rewrite T6. clear T6 K5.
  destruct (bind_ok_inv _ _ _ K6) as (x7 & _ & K7 & T7).
  rewrite T7. clear T7 K6.
  destruct (bind_ok_inv _ _ _ K7) as (st8 & _ & K8 & T8).
  rewrite T8. clear T8 K7.
  rewrite !schedule_app.
  rewrite (translate_schedule _ _ _ _ H2).
  destruct (vid_file_ok _ _ H5) as [-> Hvt]. rewrite Hvt.
  destruct (save_schedule _ _ _ _ _ H6) as [-> Hst]. rewrite Hst.
  rewrite !progress_trace.
  rewrite (IH _ _ _ K8). reflexivity.
Qed.

Lemma transcribe_schedule (model : option Model) (audio_file : string)
    (r : SubtitleResult) (q : option string) :
  result (transcribe_audio E model audio_file video_language q) = Ok r ->
  schedule (trace (transcribe_audio E model audio_file video_language q))
  = [Load audio_file; Recognise (PyStr.lower video_language)].
Proof.
  intros Hr.
  destruct (transcribe_audio_ok_shape _ _ _ _ Hr) as (m & audio & _ & Htr).
  now rewrite Htr.
Qed.

Lemma inputs_schedule (model : option Model) (audio_files : list string) :
  forall (st st' : Steps) (p : option string),
    result (inputs E vid_file_map video_language translation_languages
              translation_service translation_service_api_key mode
              model audio_files st p) = Ok st' ->
    schedule (trace (inputs E vid_file_map video_language
                       translation_languages translation_service
                       translation_service_api_key mode
                       model audio_files st p))
    = flat_map (input_steps E vid_file_map video_language
                  translation_languages) audio_files.
Proof.
  induction audio_files as [|a rest IH]; intros st st' p Hres;
    [reflexivity|].
  cbn [inputs flat_map] in *.
  destruct (bind_ok_inv _ _ _ Hres) as (v & H1 & K1 & T1).
  rewrite T1. clear T1 Hres.
  destruct (bind_ok_inv _ _ _ K1) as (x2 & _ & K2 & T2).
  rewrite T2. clear T2 K1.
  destruct (bind_ok_inv _ _ _ K2) as (r & H3 & K3 & T3).
  rewrite T3. clear T3 K2.
  destruct (bind_ok_inv _ _ _ K3) as (x4 & _ & K4 & T4).
  rewrite T4. clear T4 K3.
  destruct (bind_ok_inv _ _ _ K4) as (st5 & _ & K5 & T5).
  rewrite T5. clear T5 K4.
  destruct (bind_ok_inv _ _ _ K5) as (v' & H6 & K6 & T6).
  rewrite T6. clear T6 K5.
  destruct (bind_ok_inv _ _ _ K6) as (n & H7 & K7 & T7).
  rewrite T7. clear T7 K6.
  destruct (bind_ok_inv _ _ _ K7) as (x8 & _ & K8 & T8).
  rewrite T8. clear T8 K7.
  destruct (bind_ok_inv _ _ _ K8) as (st9 & _ & K9 & T9).
  rewrite T9. clear T9 K8.
  destruct (bind_ok_inv _ _ _ K9) as (st10 & H10 & K10 & T10).
  rewrite T10. clear T10 K9.
  rewrite !schedule_app.
  destruct (vid_file_ok _ _ H1) as [_ Hvt]. rewrite Hvt.
  rewrite (transcribe_schedule _ _ _ H3).
  destruct (vid_file_ok _ _ H6) as [-> Hvt']. rewrite Hvt'.
  destruct (save_schedule _ _ _ _ _ H7) as [-> Hst]. rewrite Hst.
  rewrite !progress_trace.
  rewrite (translations_schedule _ _ _ _ _ H10).
  rewrite (IH _ _ _ K10). reflexivity.
Qed.

(** X20. The work of a run that ends normally: every input, in order, is
    read, transcribed in the lower-cased source language and saved as the
    default track, and then, for each target language in order,
    translated by one provider call and saved; nothing else is read,
    recognised, translated or written. *)
Theorem complete_run_schedule (audio_files : list string)
    (p : option string) :
  let o := subtitle E vid_file_map audio_files video_language
             translation_languages translation_service
             translation_service_api_key model_size mode p in
  result o = Ok tt ->
  schedule (trace o)
  = flat_map (input_steps E vid_file_map video_language
                translation_languages) audio_files.
Proof.
  cbv zeta. destruct (subtitle_of_steps audio_files p) as [Ht Hr].
  rewrite Ht, Hr. clear Ht Hr. intros Hok.
  destruct (result (subtitle_steps E vid_file_map audio_files video_language
                      translation_languages translation_service
                      translation_service_api_key model_size mode p))
    as [st'|e] eqn:Hsteps; [clear Hok|discriminate].
  assert (Hinit : exists model, result (init_model E model_size p) = Ok model).
  { unfold subtitle_steps in Hsteps.
    erewrite result_bind_ok in Hsteps; [|apply progress_outcome].
    destruct (bind_ok_inv _ _ _ Hsteps) as (model & Hm & _). eauto. }
  destruct Hinit as [model Hinit].
  destruct (@subtitle_steps_after_init audio_files p model Hinit)
    as (before & st & Hb & _ & Hres & Htrace).
  cbv zeta in Hres, Htrace. rewrite Htrace, schedule_app.
  rewrite (schedule_untouched Hb). rewrite Hres in Hsteps.
  apply (inputs_schedule _ _ _ _ Hsteps).
Qed.

End Run.

(** With no target language the translation service is never looked at. *)
Lemma inputs_without_targets (E : Env) (vid_file_map : dict string string)
    (video_language service service' : string)
    (key key' mode : option string) (model : option Model)
    (audio_files : list string) :
  forall (st : Steps) (p : option string),
    inputs E vid_file_map video_language [] service key mode model
      audio_files st p
    = inputs E vid_file_map video_language [] service' key' mode model
        audio_files st p.
Proof.
  induction audio_files as [|a rest IH]; intros st p; [reflexivity|].
  cbn [inputs translations].
  repeat (apply bind_ext; intros ? ?). apply IH.
Qed.

Lemma bind_cong A B (m m' : M A) (k : A -> M B) (p : option string) :
  m p = m' p -> bind m k p = bind m' k p.
Proof. intros Hm. unfold bind. now rewrite Hm. Qed.

(** X23. With no target language the translation service and its credential
    are never looked at: the run is the same for any two of them. *)
Theorem service_unused_without_targets (E : Env)
    (vid_file_map : dict string string) (audio_files : list string)
    (video_language service service' : string)
    (key key' model_size mode p : option string) :
  subtitle E vid_file_map audio_files video_language [] service key
    model_size mode p
  = subtitle E vid_file_map audio_files video_language [] service' key'
      model_size mode p.
Proof.
  unfold subtitle. apply bind_cong. unfold subtitle_steps.
  repeat (apply bind_ext; intros ? ?).
  apply inputs_without_targets.
Qed.

(** ** The further properties on the samples *)


Lemma time_codes_keep_order_witness :
  exists tx ty mx my,
    Timestamp.format_timestamp (25 # 10) = Some tx
    /\ Timestamp.format_timestamp (3723456 # 1000) = Some ty
    /\ Timestamp.parse_timestamp tx = Some mx
    /\ Timestamp.parse_timestamp ty = Some my
    /\ mx <= my.
Proof.
  apply (@time_codes_keep_order (25 # 10)%Q (3723456 # 1000)%Q).
  - unfold Qle. simpl. lia.
  - unfold Qle. simpl. lia.
  - unfold Qlt. simpl. lia.
Defined.


Lemma post_process_keys_unique_witness :
  exists r,
    post_process_result_for_srt SampleHost.repeated = Ok r
    /\ List.length r = 1%nat
    /\ NoDup (keys r).
Proof.
  eexists. split; [reflexivity|]. split; [reflexivity|].
  apply (@post_process_keys_unique SampleHost.repeated). reflexivity.
Defined.

Lemma post_process_last_segment_wins_witness :
  exists r,
    post_process_result_for_srt SampleHost.repeated = Ok r
    /\ dict_get Z.eqb r 1
       = Some (mkEntry "00:00:01,000" "00:00:02,000" "second")
    /\ dict_get Z.eqb r 2 = None.
Proof.
  eexists. split; [reflexivity|]. split.
  - exact (@post_process_last_segment_wins SampleHost.repeated _ 1 eq_refl).
  - exact (@post_process_last_segment_wins SampleHost.repeated _ 2 eq_refl).
Defined.


Lemma transcribe_audio_outcomes_witness :
  let E := Sample.env Sample.fits_medium Sample.full in
  let m := mkModel "medium" cuda in
  let o := transcribe_audio E (Some m) "tmp/a.wav" "English" None in
  trace o = [LoadAudio "tmp/a.wav";
             Transcribe m (mkAudio [0; 1; -1]) "english"]
  /\ result o = post_process_result_for_srt Sample.segments.
Proof.
  refine (proj2 (proj2 (@transcribe_audio_outcomes
            (Sample.env Sample.fits_medium Sample.full)
            (mkModel "medium" cuda) "tmp/a.wav" "English" None _))
          (mkAudio [0; 1; -1]) eq_refl).
  reflexivity.
Defined.

Lemma pipeline_translation_keeps_timing_witness :
  let E := Sample.env Sample.fits_medium Sample.full in
  exists r out,
    result (transcribe_audio E (Some (mkModel "medium" cuda)) "tmp/a.wav"
              "English" None) = Ok r
    /\ result (translate_transcribed_result E r "English" "french" "google"
                 None None) = Ok out
    /\ map timing out = map timing r
    /\ List.length out = List.length r.
Proof.
  cbv zeta. eexists. eexists. split; [reflexivity|]. split; [reflexivity|].
  apply (@pipeline_translation_keeps_timing
           (Sample.env Sample.fits_medium Sample.full)
           (Some (mkModel "medium" cuda)) "tmp/a.wav" "English" "french"
           "google" None None None); reflexivity.
Defined.

Lemma translate_single_batched_call_witness :
  let E := Sample.env Sample.fits_medium Sample.full in
  let o := translate_transcribed_result E Sample.transcript "english"
             "french" "google" None None in
  trace o = [TranslateBatch (GoogleTranslator "english" "french")
               ["Hello there."; "General Kenobi!"]]
  /\ model_pref_file o = None.
Proof.
  pose proof (@translate_single_batched_call
                (Sample.env Sample.fits_medium Sample.full) Sample.transcript
                "english" "french" "google" None None
                (GoogleTranslator "english" "french")) as H.
  cbv zeta in H. cbv zeta.
  assert (N : NoDup (keys Sample.transcript)).
  { repeat constructor; simpl; intuition discriminate. }
  destruct (H N eq_refl eq_refl) as (Ht & Hp & _).
  split; [exact Ht | exact Hp].
Defined.

Lemma translate_ignores_source_language_witness :
  let E := Sample.env Sample.fits_medium Sample.full in
  translate_transcribed_result E Sample.transcript "english" "french"
    "microsoft" (Some "key") None
  = translate_transcribed_result E Sample.transcript "german" "french"
      "microsoft" (Some "key") None.
Proof.
  apply (@translate_ignores_source_language
           (Sample.env Sample.fits_medium Sample.full) Sample.transcript
           "english" "german" "french" "microsoft" (Some "key") None).
  left. reflexivity.
Defined.

Lemma translate_unhandled_provider_witness :
  translate_transcribed_result SampleHost.env_with_papago Sample.transcript
    "english" "french" "papago" (Some "key") None
  = mkOutcome
      (Raise (mkExn AttributeError
                "'str' object has no attribute 'translate_batch'"))
      None [].
Proof.
  apply (@translate_unhandled_provider SampleHost.env_with_papago
           Sample.transcript "english" "french" "papago" "key" None).
  - simpl. auto.
  - unfold handled_providers. simpl. intuition discriminate.
Defined.




Lemma save_replaces_extension_witness :
  let E := Sample.env Sample.fits_medium Sample.full in
  save_result_as_srt E Sample.transcript "English" "videos/b.x.mkv" true None
  = mkOutcome (Ok "videos/b.x.default.en.srt") None
      [WriteFile "videos/b.x.default.en.srt" (srt_body E Sample.transcript)].
Proof.
  apply (@save_replaces_extension
           (Sample.env Sample.fits_medium Sample.full) Sample.transcript
           "English" "videos/b.x" "mkv" "en" true None); reflexivity.
Defined.

Lemma save_without_extension_loses_name_witness :
  let E := Sample.env Sample.fits_medium Sample.full in
  save_result_as_srt E Sample.transcript "French" "videos/clip" false None
  = mkOutcome (Ok ".fr.srt") None
      [WriteFile ".fr.srt" (srt_body E Sample.transcript)].
Proof.
  apply (@save_without_extension_loses_name
           (Sample.env Sample.fits_medium Sample.full) Sample.transcript
           "French" "videos/clip" "fr" false None); reflexivity.
Defined.

Lemma translated_track_named_by_transcription_code_witness :
  let E := Sample.env Sample.fits_medium Sample.full in
  save_result_as_srt E Sample.transcript "German" "videos/a.mp4" false None
  = mkOutcome (Ok "videos/a.de.srt") None
      [WriteFile "videos/a.de.srt" (srt_body E Sample.transcript)].
Proof.
  apply (@translated_track_named_by_transcription_code
           (Sample.env Sample.fits_medium Sample.full) Sample.transcript
           "German" "videos/a.mp4" "de" None); reflexivity.
Defined.

Lemma srt_body_lines_witness :
  let E := Sample.env Sample.fits_medium Sample.full in
  PyStr.split (ascii_of_nat 10) (srt_body E Sample.transcript)
  = ["1"; "00:00:00,000 --> 00:00:02,500"; "Hello there."; EmptyString;
     "2"; "00:00:02,500 --> 01:02:03,456"; "General Kenobi!"; EmptyString;
     EmptyString].
Proof.
  apply (@srt_body_lines (Sample.env Sample.fits_medium Sample.full)
           Sample.transcript).
  repeat constructor.
Defined.

Lemma complete_run_schedule_witness :
  let E := Sample.env Sample.fits_medium Sample.full in
  schedule (trace (subtitle E Sample.vid_file_map ["tmp/a.wav"; "tmp/b.wav"]
                     "English" ["french"; "spanish"] "google" None None None
                     None))
  = [Load "tmp/a.wav"; Recognise "english"; Save "videos/a.default.en.srt";
     Translate "french"; Save "videos/a.fr.srt";
     Translate "spanish"; Save "videos/a.es.srt";
     Load "tmp/b.wav"; Recognise "english";
     Save "videos/b.x.default.en.srt";
     Translate "french"; Save "videos/b.x.fr.srt";
     Translate "spanish"; Save "videos/b.x.es.srt"].
Proof.
  apply (@complete_run_schedule (Sample.env Sample.fits_medium Sample.full)
           Sample.vid_file_map "English" ["french"; "spanish"] "google" None
           None None ["tmp/a.wav"; "tmp/b.wav"] None).
  reflexivity.
Defined.

Lemma unsupported_language_found_after_model_load_witness :
  let E := Sample.env Sample.fits_medium Sample.full in
  let o := subtitle E Sample.vid_file_map ["tmp/a.wav"; "tmp/b.wav"]
             "Klingon" ["french"] "google" None None None None in
  result o = Raise (mkExn Exception unsupported_language_msg)
  /\ schedule (trace o) = []
  /\ loaded_sizes (trace o)
     = loaded_sizes (trace (init_model E None None)).
Proof.
  apply (@unsupported_language_found_after_model_load
           (Sample.env Sample.fits_medium Sample.full) Sample.vid_file_map
           "Klingon" ["french"] "google" None None None "tmp/a.wav"
           "videos/a.mp4" ["tmp/b.wav"] None
           (Some (mkModel "medium" cuda))); reflexivity.
Defined.

Lemma provider_error_found_after_first_transcript_witness :
  let E := Sample.env Sample.fits_medium Sample.full in
  let o := subtitle E Sample.vid_file_map ["tmp/a.wav"; "tmp/b.wav"]
             "English" ["french"] "deepl" None None None None in
  (exists msg, result o = Raise (mkExn Exception msg)
               /\ (msg = unsupported_translator_msg \/ msg = api_key_msg))
  /\ schedule (trace o)
     = [Load "tmp/a.wav"; Recognise "english";
        Save "videos/a.default.en.srt"].
Proof.
  refine (@provider_error_found_after_first_transcript
            (Sample.env Sample.fits_medium Sample.full) Sample.vid_file_map
            "English" ["french"] "deepl" None None None "tmp/a.wav"
            "videos/a.mp4" "en" "french" ["tmp/b.wav"] [] None
            (Some (mkModel "medium" cuda)) Sample.transcript
            eq_refl _ eq_refl _ eq_refl _).
  - reflexivity.
  - reflexivity.
  - left. split; [discriminate | reflexivity].
Defined.

Lemma check_if_file_is_video_never_raises_witness :
  result (check_if_file_is_video SampleHost.host "videos/a.mp4" None)
  = Ok (Some true)
  /\ result (check_if_file_is_video SampleHost.host "videos/song.mp3" None)
     = Ok (Some false)
  /\ result (check_if_file_is_video SampleHost.host "videos/notes.txt" None)
     = Ok None.
Proof.
  split; [|split].
  - refine (proj1 (proj2 (proj2 (proj2
      (@check_if_file_is_video_never_raises SampleHost.host "videos/a.mp4"
         None)))) _ eq_refl _).
    repeat constructor; discriminate.
  - refine (proj1 (proj2 (proj2 (proj2
      (@check_if_file_is_video_never_raises SampleHost.host
         "videos/song.mp3" None)))) _ eq_refl _).
    repeat constructor; discriminate.
  - exact (proj1 (proj2 (proj2
      (@check_if_file_is_video_never_raises SampleHost.host
         "videos/notes.txt" None))) _ eq_refl).
Defined.

Lemma wav_name_of_path_witness :
  wav_name SampleHost.host "videos/a.b.mp4" = "tmp/a.b.wav".
Proof.
  apply (@wav_name_of_path SampleHost.host "videos" "a.b" "mp4");
    reflexivity.
Defined.

Lemma process_args_inputs_have_videos_witness :
  exists v,
    vid_file [("tmp/a.wav", "videos/a.mp4")] "tmp/a.wav" None
    = mkOutcome (Ok v) None []
    /\ wav_name SampleHost.host v = "tmp/a.wav".
Proof.
  apply (@process_args_inputs_have_videos SampleHost.host None
           (Some "videos") None None [("tmp/a.wav", "videos/a.mp4")]
           ["tmp/a.wav"]).
  - reflexivity.
  - simpl. auto.
Defined.

Lemma same_stem_videos_collide_witness :
  exists m,
    result (gen_wav_files SampleHost.host ["videos/a.mp4"; "other/a.mkv"]
              [] [] None)
    = Ok (m, ["tmp/a.wav"; "tmp/a.wav"])
    /\ dict_get String.eqb m "tmp/a.wav" = Some "other/a.mkv".
Proof.
  apply (@same_stem_videos_collide SampleHost.host "videos/a.mp4"
           "other/a.mkv" [] None); reflexivity.
Defined.

Lemma detect_lang_picks_first_maximum_witness :
  let E := Sample.env Sample.fits_medium Sample.full in
  exists k,
    result (detect_lang E SampleHost.host (Some (mkModel "medium" cuda))
              "tmp/a.wav" None) = Ok k
    /\ first_maximum k [("fr", 1 # 10); ("de", 4 # 10); ("en", 4 # 10);
                        ("es", 1 # 10)]%Q.
Proof.
  refine (proj2 (@detect_lang_picks_first_maximum
            (Sample.env Sample.fits_medium Sample.full) SampleHost.host
            (mkModel "medium" cuda) "tmp/a.wav" (mkAudio [0; 1; -1])
            [("fr", 1 # 10); ("de", 4 # 10); ("en", 4 # 10);
             ("es", 1 # 10)]%Q None eq_refl eq_refl) _).
  discriminate.
Defined.
